(** * dbmviz: the DBM class and the zone commands of the interpreter

    A shallow embedding of [src/dbmviz.py].  The matrix of a DBM is the flat
    Python list [self.dbm], read and written through [__getitem__] and
    [__setitem__] at the position [i * self.clocks + j]; integers are
    unbounded ([Z]); the sentinel [infinity] is the integer 100000. *)

From stdpp Require Import base numbers list strings gmap.

Local Open Scope Z_scope.

(** ** Python values *)

Definition infinity : Z := 100000.

Definition colors : list string :=
  ["red"; "green"; "blue"; "cyan"; "magenta"; "yellow"]%string.

(** The exceptions the modelled code can raise. *)
Inductive exn : Type :=
| TypeError
| IndexError.

(** [l[i]] on a Python list: a negative index counts from the end, anything
    outside [-len l .. len l - 1] raises IndexError ([None] here). *)
Definition py_index (len : nat) (i : Z) : option nat :=
  if (0 <=? i) && (i <? Z.of_nat len) then Some (Z.to_nat i)
  else if (- Z.of_nat len <=? i) && (i <? 0) then Some (Z.to_nat (Z.of_nat len + i))
  else None.

Definition py_get (l : list Z) (i : Z) : option Z :=
  k ← py_index (length l) i; l !! k.

Definition py_set (l : list Z) (i : Z) (v : Z) : option (list Z) :=
  k ← py_index (length l) i; Some (<[k := v]> l).

(** [range(lo, hi)] *)
Definition range (lo hi : Z) : list Z := seqZ lo (hi - lo).

(** ** The DBM object *)

Record DBM : Type := mkDBM {
  clocks : Z;          (* number of clocks, the 0-clock included *)
  dbm : list Z;        (* row-major matrix *)
  color : string
}.

(** ** Methods: state of [self] plus exceptions *)

Inductive outcome (A : Type) : Type :=
| Returns (a : A) (self : DBM)
| Raises (e : exn) (self : DBM).
Arguments Returns {A} a self.
Arguments Raises {A} e self.

Definition method (A : Type) : Type := DBM → outcome A.

Global Instance method_ret : MRet method := λ A a s, Returns a s.

Global Instance method_bind : MBind method := λ A B k m s,
  match m s with
  | Returns a s' => k a s'
  | Raises e s' => Raises e s'
  end.

Definition ret {A} (a : A) : method A := mret a.

Definition raise {A} (e : exn) : method A := λ s, Raises e s.

Definition self_clocks : method Z := λ s, Returns (clocks s) s.

Definition set_dbm (l : list Z) : method unit :=
  λ s, Returns tt (mkDBM (clocks s) l (color s)).

Definition set_color (c : string) : method unit :=
  λ s, Returns tt (mkDBM (clocks s) (dbm s) c).

(** [__getitem__] *)
Definition getitem (i j : Z) : method Z :=
  λ s, match py_get (dbm s) (i * clocks s + j) with
       | Some v => Returns v s
       | None => Raises IndexError s
       end.

(** [__setitem__] *)
Definition setitem (i j v : Z) : method unit :=
  λ s, match py_set (dbm s) (i * clocks s + j) v with
       | Some l => Returns tt (mkDBM (clocks s) l (color s))
       | None => Raises IndexError s
       end.

(** [for x in l: body] *)
Fixpoint for_ {A} (l : list A) (body : A → method unit) : method unit :=
  match l with
  | [] => ret tt
  | x :: l' => body x;; for_ l' body
  end.

(** A [for] loop whose body may [return]: [Some r] leaves the loop (and the
    enclosing loops) with the value [r]. *)
Fixpoint for_return {A R} (l : list A) (body : A → method (option R)) : method (option R) :=
  match l with
  | [] => ret None
  | x :: l' =>
      r ← body x;
      match r with
      | Some v => ret (Some v)
      | None => for_return l' body
      end
  end.

(** Binding the arguments of a call to a function with one required
    positional parameter: any other number of arguments raises TypeError
    before the body runs. *)
Definition call1 {A} (f : Z → A) (args : list Z) : method A :=
  match args with
  | [a] => ret (f a)
  | _ => raise TypeError
  end.

(** ** Constructors

    [DBM(clocks)] draws its colour from the global [color_iter]; the colour
    drawn is the parameter [col] here (the iterator itself is part of the
    object store below). *)

Definition init (n : Z) (col : string) : DBM :=
  mkDBM (n + 1) (replicate (Z.to_nat ((n + 1) ^ 2)) 0) col.

Definition zero (n : Z) (col : string) : DBM := init n col.

(** The list [DBM.false(clocks).dbm]. *)
Definition false_matrix (n : Z) : list Z :=
  replicate (Z.to_nat ((n + 1) ^ 2)) (-1).

Definition false_ (n : Z) (col : string) : DBM :=
  let d := init n col in mkDBM (clocks d) (false_matrix n) (color d).

Definition true_ (n : Z) (col : string) : outcome unit :=
  (for_ (range 1 (n + 1)) (λ c1,
     for_ (range 0 (n + 1)) (λ c2, setitem c1 c2 infinity));;
   for_ (range 0 (n + 1)) (λ c2, setitem 0 c2 0))
  (init n col).

(** ** The algebra *)

Definition is_consistent : method bool :=
  n ← self_clocks;
  r ← for_return (range 0 n) (λ c1,
        for_return (range 0 n) (λ c2,
          a ← getitem c1 c2;
          b ← getitem c2 c1;
          if - a >? b then ret (Some false) else ret None));
  ret (default true r).

(** The body of the two loops of [canonize], for the pair [c1], [c2];
    [n] is [self.clocks]. *)
Definition canonize_pair (n c1 c2 : Z) : method unit :=
  if c1 =? c2 then ret tt
  else
    let c3 := n - c1 - c2 in
    a ← getitem c1 c2;
    b ← getitem c1 c3;
    c ← getitem c3 c2;
    if a >? b + c then
      b1 ← getitem c1 c3;
      fin ← (if negb (b1 =? infinity)
             then c1' ← getitem c3 c2; ret (negb (c1' =? infinity))
             else ret false);
      v ← (if fin : bool
           then b2 ← getitem c1 c3; c2' ← getitem c3 c2; ret (b2 + c2')
           else ret infinity);
      setitem c1 c2 v
    else ret tt.

Definition canonize : method unit :=
  n ← self_clocks;
  for_ (range 0 n) (λ c1,
    for_ (range 0 n) (λ c2, canonize_pair n c1 c2)).

Definition leq (clock1 clock2 value : Z) : method unit :=
  a ← getitem clock1 clock2;
  setitem clock1 clock2 (Z.min a value);;
  ok ← is_consistent;
  (if negb ok
   then m ← call1 false_matrix []; set_dbm m
   else ret tt);;
  canonize.

Definition free (clock1 clock2 : Z) : method unit :=
  if clock1 =? 0 then setitem 0 clock2 0
  else setitem clock1 clock2 infinity.

Definition reset (clock value : Z) : method unit :=
  setitem clock 0 value;;
  setitem 0 clock value;;
  n ← self_clocks;
  for_ (range 1 n) (λ clock2,
    if negb (clock2 =? clock)
    then setitem clock clock2 infinity;; setitem clock2 clock infinity
    else ret tt);;
  canonize.

(** [copy]: [DBM(self.clocks - 1)] draws the colour [col], which the
    assignment of [self.color] then overwrites. *)
Definition copy (self : DBM) (col : string) : DBM :=
  let d := init (clocks self - 1) col in
  mkDBM (clocks d) (dbm self) (color self).

(** [__eq__]; [zip] stops at the shorter list. *)
Definition eq_ (self other : DBM) : bool :=
  (clocks self =? clocks other)
  && forallb (λ ab, fst ab =? snd ab) (zip (dbm self) (dbm other)).


(** ** The commands of the interpreter that act on the selected DBM

    The interpreter only ever creates DBMs with two real clocks ([x] is
    clock 1, [y] is clock 2), and its commands address the indices 0, 1, 2
    literally. *)

(** [up] *)
Definition up : method unit := free 1 0;; free 2 0.

(** [down] *)
Definition down : method unit := free 0 1;; free 0 2.

(** [free <x1>-<x2>] *)
Definition free_command (x1 x2 : Z) : method unit := free x1 x2;; canonize.

(** [M[k]] on a list of maxima. *)
Definition index (l : list Z) (k : Z) : method Z :=
  λ s, match py_get l k with
       | Some v => Returns v s
       | None => Raises IndexError s
       end.

(** The body of the two loops of the [extrapolate] command. *)
Definition extrapolate_pair (M : list Z) (x1 x2 : Z) : method unit :=
  if x1 =? x2 then ret tt
  else
    a ← getitem x1 x2;
    m1 ← index M x1;
    if a >? m1 then setitem x1 x2 infinity
    else
      a' ← getitem x1 x2;
      m2 ← index M x2;
      if - a' >? m2 then m2' ← index M x2; setitem x1 x2 (- m2')
      else ret tt.

(** The [extrapolate] command once its maxima [M] are parsed. *)
Definition extrapolate (M : list Z) : method unit :=
  for_ [0; 1; 2] (λ x1, for_ [0; 1; 2] (λ x2, extrapolate_pair M x1 x2));;
  canonize.

(** [str.isdigit] on a word of the command line.  The arguments of the
    commands are given here as the integers whose plain decimal numerals
    are the words of the line (digits, after a minus sign when the integer
    is negative); [isdigit] holds of such a numeral exactly when it has no
    sign. *)
Definition isdigit (m : Z) : bool := 0 <=? m.

(** [extrapolate <constant>] and [extrapolate <x constant> <y constant>];
    any other number of arguments prints the usage and changes nothing,
    and so does an argument that [isdigit] rejects. *)
Definition extrapolate_command (args : list Z) : method unit :=
  match args with
  | [m] =>
    if negb (isdigit m) then ret tt
    else extrapolate [infinity; m; m]
  | [m1; m2] =>
    if negb (isdigit m1) then ret tt
    else if negb (isdigit m2) then ret tt
    else extrapolate [infinity; m1; m2]
  | _ => ret tt
  end.

(** The body of the two loops of the [LUextrapolate] command. *)
Definition lu_extrapolate_pair (L U : list Z) (x1 x2 : Z) : method unit :=
  if x1 =? x2 then ret tt
  else
    a ← getitem x1 x2;
    l1 ← index L x1;
    if a >? l1 then setitem x1 x2 infinity
    else
      a' ← getitem x1 x2;
      u2 ← index U x2;
      if - a' >? u2 then u2' ← index U x2; setitem x1 x2 (- u2')
      else ret tt.

Definition lu_extrapolate (L U : list Z) : method unit :=
  for_ [0; 1; 2] (λ x1, for_ [0; 1; 2] (λ x2, lu_extrapolate_pair L U x1 x2));;
  canonize.

(** [LUextrapolate <lower x> <upper x> <lower y> <upper y>]; the loop that
    tests [isdigit] only prints a message for a word it rejects and goes
    on, so every integer is taken. *)
Definition lu_extrapolate_command (args : list Z) : method unit :=
  match args with
  | [lx; ux; ly; uy] => lu_extrapolate [infinity; lx; ly] [infinity; ux; uy]
  | _ => ret tt
  end.

(** ** Objects in the store

    A DBM object holds a reference to its list; [__setitem__] mutates that
    list in place, [copy] allocates a new one.  [color_iter] is the position
    in [itertools.cycle(colors)]. *)

Record object : Type := mkObject {
  o_clocks : Z;
  o_dbm : positive;       (* address of the list [self.dbm] *)
  o_color : string
}.

Record store : Type := mkStore {
  lists : gmap positive (list Z);
  objects : gmap positive object;
  color_iter : nat
}.

(** [next(color_iter)] *)
Definition next_color (st : store) : string * store :=
  (default "red"%string (colors !! (color_iter st `mod` 6)%nat),
   mkStore (lists st) (objects st) (S (color_iter st))).

Definition alloc_list (l : list Z) (st : store) : positive * store :=
  let a := fresh (dom (lists st)) in
  (a, mkStore (<[a := l]> (lists st)) (objects st) (color_iter st)).

Definition alloc_object (o : object) (st : store) : positive * store :=
  let p := fresh (dom (objects st)) in
  (p, mkStore (lists st) (<[p := o]> (objects st)) (color_iter st)).

(** [DBM(n)] *)
Definition new_DBM (n : Z) (st : store) : positive * store :=
  let '(a, st1) := alloc_list (replicate (Z.to_nat ((n + 1) ^ 2)) 0) st in
  let '(col, st2) := next_color st1 in
  alloc_object (mkObject (n + 1) a col) st2.

(** The state of the object at [p], as the methods see it. *)
Definition view (st : store) (p : positive) : option DBM :=
  o ← objects st !! p;
  l ← lists st !! o_dbm o;
  Some (mkDBM (o_clocks o) l (o_color o)).

(** [p.copy()]: a new object, a new list with the same elements, the same
    colour string. *)
Definition obj_copy (p : positive) (st : store) : option (positive * store) :=
  o ← objects st !! p;
  l ← lists st !! o_dbm o;
  let '(q, st1) := new_DBM (o_clocks o - 1) st in
  oq ← objects st1 !! q;
  let '(a, st2) := alloc_list l st1 in
  Some (q, mkStore (lists st2)
                   (<[q := mkObject (o_clocks oq) a (o_color o)]> (objects st2))
                   (color_iter st2)).

(** A method call [p.m(...)]: the method runs on the state of [p]; its
    writes go to the list of [p] and to the colour attribute of [p]. *)
Definition call {A} (m : method A) (p : positive) (st : store)
  : option (outcome A * store) :=
  o ← objects st !! p;
  l ← lists st !! o_dbm o;
  let r := m (mkDBM (o_clocks o) l (o_color o)) in
  let s' := match r with Returns _ s' => s' | Raises _ s' => s' end in
  Some (r, mkStore (<[o_dbm o := dbm s']> (lists st))
                   (<[p := mkObject (o_clocks o) (o_dbm o) (color s')]> (objects st))
                   (color_iter st)).

(** ** Auxiliary notions for the statements *)

(** The value [canonize] stores when the pair is not tight. *)
Definition path_sum (p q : Z) : Z :=
  if negb (p =? infinity) && negb (q =? infinity) then p + q else infinity.

(** What one iteration of [canonize] leaves in [D[c1,c2]]. *)
Definition shorten (x p q : Z) : Z :=
  if x >? p + q then path_sum p q else x.

(** The six off-diagonal entries of a matrix on three clocks after one
    pass of [canonize], in the order the loops visit them:
    [b = D[0,1]], [c = D[0,2]], [d = D[1,0]], [f = D[1,2]], [g = D[2,0]],
    [h = D[2,1]]. *)
Definition pass (b c d f g h : Z) : Z * Z * Z * Z * Z * Z :=
  let b' := shorten b c h in
  let c' := shorten c b' f in
  let d' := shorten d f g in
  let f' := shorten f d' c' in
  let g' := shorten g h d' in
  let h' := shorten h g' b' in
  (b', c', d', f', g', h').

(** [x] is tight with respect to the path through [u] and [v]: the test of
    [canonize] fails, or the store changes nothing. *)
Definition tight (x u v : Z) : Prop :=
  x <= u + v ∨ (x = infinity ∧ (u = infinity ∨ v = infinity)).

Definition all_tight (b c d f g h : Z) : Prop :=
  tight b c h ∧ tight c b f ∧ tight d f g
  ∧ tight f d c ∧ tight g h d ∧ tight h g b.

(** No entry above [infinity] and no negative cycle among the six
    off-diagonal entries. *)
Definition sane (b c d f g h : Z) : Prop :=
  (b <= infinity ∧ c <= infinity ∧ d <= infinity
   ∧ f <= infinity ∧ g <= infinity ∧ h <= infinity)
  ∧ (0 <= b + d ∧ 0 <= c + g ∧ 0 <= f + h)
  ∧ (0 <= b + f + g ∧ 0 <= c + h + d).

(** [D[i,j]] as [__getitem__] reads it. *)
Definition entry (d : DBM) (i j : Z) : option Z :=
  py_get (dbm d) (i * clocks d + j).

(** Infinity-aware addition: infinity is absorbing. *)
Definition ext_add (p q : Z) : Z :=
  if (p =? infinity) || (q =? infinity) then infinity else p + q.

(** The closure property of a canonical matrix. *)
Definition closed (d : DBM) : Prop :=
  ∀ i j k x u v,
    0 <= i < clocks d → 0 <= j < clocks d → 0 <= k < clocks d →
    entry d i j = Some x → entry d i k = Some u → entry d k j = Some v →
    x <= ext_add u v.

(** The value a [for] loop with [return] leaves with, when the body at [x]
    yields [f x]. *)
Fixpoint first_some {A R} (f : A → option R) (l : list A) : option R :=
  match l with
  | [] => None
  | x :: l' => match f x with Some v => Some v | None => first_some f l' end
  end.

(** What [is_consistent] answers on three clocks. *)
Definition consistent3 (a b c d e f g h i : Z) : bool :=
  negb ((- a >? a) || (- b >? d) || (- c >? g)
        || (- d >? b) || (- e >? e) || (- f >? h)
        || (- g >? c) || (- h >? f) || (- i >? i)).

(** What the loops of [extrapolate] leave in [D[x1,x2]], for the maxima
    [m1 = M[x1]] and [m2 = M[x2]]. *)
Definition extrapolated (x m1 m2 : Z) : Z :=
  if x >? m1 then infinity else if - x >? m2 then - m2 else x.

(** The matrix that states the bounds [x_ge <= x <= x_le],
    [y_ge <= y <= y_le], [x - y <= xy_le] and [y - x <= yx_le] on two
    clocks; its canonical form is what [canonize] makes of it. *)
Definition constraint_dbm (x_ge x_le y_ge y_le xy_le yx_le : Z) (col : string) : DBM :=
  mkDBM 3 [0; - x_ge; - y_ge;  x_le; 0; xy_le;  y_le; yx_le; 0] col.

(** The matrix of [true(2)]. *)
Definition true2 (col : string) : DBM :=
  mkDBM 3 [0;0;0; infinity;infinity;infinity; infinity;infinity;infinity] col.

(** A DBM that differs from [s] in the colour only. *)
Definition recolor (c : string) (s : DBM) : DBM := mkDBM (clocks s) (dbm s) c.

Definition recolor_outcome {A} (c : string) (r : outcome A) : outcome A :=
  match r with
  | Returns a s => Returns a (recolor c s)
  | Raises e s => Raises e (recolor c s)
  end.

(** A method that neither reads nor writes the colour. *)
Definition colour_blind {A} (m : method A) : Prop :=
  ∀ s c, m (recolor c s) = recolor_outcome c (m s).

(** The store right after [new zero] in a fresh session. *)
Definition empty_store : store := mkStore ∅ ∅ 0.

(** The assignments of [reset], before it calls [canonize]. *)
Definition reset_assignments (clock value : Z) : method unit :=
  setitem clock 0 value;;
  setitem 0 clock value;;
  n ← self_clocks;
  for_ (range 1 n) (λ clock2,
    if negb (clock2 =? clock)
    then setitem clock clock2 infinity;; setitem clock2 clock infinity
    else ret tt).

(** The mutators that end with a call of [canonize], at the arguments the
    interpreter can pass on two clocks. *)
Inductive canonizing : method unit → Prop :=
| cz_canonize : canonizing canonize
| cz_leq i j v : 0 <= i < 3 → 0 <= j < 3 → i ≠ j → canonizing (leq i j v)
| cz_reset c v : c = 1 ∨ c = 2 → canonizing (reset c v)
| cz_free i j : 0 <= i < 3 → 0 <= j < 3 → i ≠ j → canonizing (free_command i j)
| cz_extrapolate m0 m1 m2 : canonizing (extrapolate [m0; m1; m2])
| cz_lu_extrapolate l0 l1 l2 u0 u1 u2 :
    canonizing (lu_extrapolate [l0; l1; l2] [u0; u1; u2]).

(** All the mutators: those above, and [free], [up], [down], which leave
    the call of [canonize] to the caller. *)
Inductive mutator : method unit → Prop :=
| mu_canonizing op : canonizing op → mutator op
| mu_free i j : 0 <= i < 3 → 0 <= j < 3 → i ≠ j → mutator (free i j)
| mu_up : mutator up
| mu_down : mutator down.

(** A finite bound [x = D[i,j]] is within the maxima [mi = M[i]] and
    [mj = M[j]]. *)
Definition within_maxima (x mi mj : Z) : Prop :=
  x ≠ infinity → x <= mi ∧ - x <= mj.

(** The scenario [zero(2); delay(); tighten(x,0,5); tighten(0,y,-3);
    reset(y,0); delay(); tighten(y,0,3)]. *)
Definition scenario : method unit :=
  up;; leq 1 0 5;; leq 0 2 (-3);; reset 2 0;; up;; leq 2 0 3.

(** The same scenario with a call of [canonize] after each [delay()]. *)
Definition scenario_canonized : method unit :=
  up;; canonize;; leq 1 0 5;; leq 0 2 (-3);; reset 2 0;;
  up;; canonize;; leq 2 0 3.

(** The shape of the matrix of [true(n)] while its loops run, for
    [N = n + 1]: row 0 holds 0, the flat positions from [N] up to [b]
    hold infinity, the rest still holds 0. *)
Definition filled (N : Z) (col : string) (b : Z) (s : DBM) : Prop :=
  ∃ l, s = mkDBM N l col
       ∧ Z.of_nat (length l) = N * N
       ∧ ∀ idx : nat, (idx < length l)%nat →
           l !! idx = Some (if decide (N <= Z.of_nat idx < b) then infinity else 0).

(** The shape of the matrix of [false(n)] while [canonize] runs over it,
    for [N = n + 1]: every entry is negative, and [D[0,1]] is below -1
    once [moved] holds. *)
Definition sinking (N : Z) (col : string) (moved : Prop) (s : DBM) : Prop :=
  ∃ l, s = mkDBM N l col
       ∧ Z.of_nat (length l) = N * N
       ∧ (∀ v, v ∈ l → v <= -1)
       ∧ (moved → ∃ v, l !! 1%nat = Some v ∧ v <= -2).

From stdpp Require Import pretty.
Local Open Scope Z_scope.

(** ** Further notions: square matrices, pairwise consistency *)

(** The list of [d] has [clocks * clocks] elements, as every constructor
    leaves it. *)
Definition square (d : DBM) : Prop :=
  Z.of_nat (length (dbm d)) = clocks d * clocks d.

(** What [is_consistent] tests: no pair with [-D[i,j] > D[j,i]]. *)
Definition pairwise_consistent (d : DBM) : Prop :=
  ∀ i j x y,
    0 <= i < clocks d → 0 <= j < clocks d →
    entry d i j = Some x → entry d j i = Some y → - x <= y.

(** The test of [is_consistent] at the pair [c1], [c2] of the list [l]. *)
Definition violation (N : Z) (l : list Z) (c1 c2 : Z) : option bool :=
  match py_get l (c1 * N + c2), py_get l (c2 * N + c1) with
  | Some x, Some y => if - x >? y then Some false else None
  | _, _ => None
  end.

(** ** The constraint commands of the interpreter

    [constrain_re] splits the line into a clock name, an operator and an
    integer; the interpreter has no handler for exceptions, so an exception
    raised by [leq] ends the session. *)

(** The clock a name stands for: [x] is 1, [y] is 2. *)
Definition clock_named (name : string) : option Z :=
  if bool_decide (name = "x"%string) then Some 1
  else if bool_decide (name = "y"%string) then Some 2
  else None.

(** [<clock> <op> <value>]: an unknown clock or a negative value prints a
    message and changes nothing. *)
Definition constrain_command (name op : string) (value : Z) : method unit :=
  match clock_named name with
  | None => ret tt
  | Some clock =>
    if value <? 0 then ret tt
    else if bool_decide (op = "<="%string) || bool_decide (op = "<"%string)
    then leq clock 0 value
    else if bool_decide (op = ">="%string) || bool_decide (op = ">"%string)
    then leq 0 clock (- value)
    else if bool_decide (op = "="%string) || bool_decide (op = "=="%string)
    then leq clock 0 value;; leq 0 clock (- value)
    else ret tt
  end.

(** [<clock1> - <clock2> <op> <value>]; [name1] and [name2] are
    [match[1]] and [match[2]].  The list [clock] starts as [0, 0]; the
    loop over [i] in [1, 2] stores 1 or 2 at [i - 1], and for an unknown
    name prints a message and goes on with the next [i]: the command
    itself is not left. *)
Definition diff_clocks (name1 name2 : string) : list Z :=
  foldl (λ clock i,
           let name := if i =? 1 then name1 else name2 in
           if bool_decide (name = "x"%string)
           then <[Z.to_nat (i - 1) := 1]> clock
           else if bool_decide (name = "y"%string)
           then <[Z.to_nat (i - 1) := 2]> clock
           else clock)
        [0; 0] [1; 2].

Definition diff_constrain_command (name1 name2 op : string) (value : Z)
  : method unit :=
  let clock := diff_clocks name1 name2 in
  if bool_decide (op = "<="%string) || bool_decide (op = "<"%string)
  then c0 ← index clock 0; c1 ← index clock 1; leq c0 c1 value
  else if bool_decide (op = ">="%string) || bool_decide (op = ">"%string)
  then c1 ← index clock 1; c0 ← index clock 0; leq c1 c0 (- value)
  else if bool_decide (op = "="%string) || bool_decide (op = "=="%string)
  then (c0 ← index clock 0; c1 ← index clock 1; leq c0 c1 value);;
       (c1 ← index clock 1; c0 ← index clock 0; leq c1 c0 (- value))
  else ret tt.

(** ** The [copy] command of the interpreter

    [dbms] maps names to DBM objects ([None] is Python's [None], which
    [new] stores under a name it rejects); [current_dbm] is the selected
    name; [current_name] is the code point of the one-character string
    [_current_name]. *)

Record session : Type := mkSession {
  heap : store;
  dbms : gmap string (option positive);
  current_dbm : option string;
  current_name : Z
}.

(** [k] times the character that [copy] appends. *)
Fixpoint primes (k : nat) : string :=
  match k with
  | O => ""%string
  | S k' => ("'" +:+ primes k')%string
  end.

(** [while name in dbms: name += '\''], with [fuel] bounding the number of
    tests. *)
Fixpoint copy_name {V} (fuel : nat) (m : gmap string V) (name : string)
  : option string :=
  match fuel with
  | O => None
  | S fuel' =>
    if decide (is_Some (m !! name))
    then copy_name fuel' m (name +:+ "'")%string
    else Some name
  end.

(** [name_re.fullmatch]: one or more of the characters [a-zA-Z0-9_']. *)
Definition name_char (c : Ascii.ascii) : bool :=
  let n := Ascii.nat_of_ascii c in
  ((97 <=? n) && (n <=? 122) || (65 <=? n) && (n <=? 90)
   || (48 <=? n) && (n <=? 57) || (n =? 95) || (n =? 39))%nat.

Fixpoint all_name_chars (s : string) : bool :=
  match s with
  | String.EmptyString => true
  | String.String c s' => name_char c && all_name_chars s'
  end.

Definition name_ok (s : string) : bool :=
  negb (bool_decide (s = ""%string)) && all_name_chars s.

(** [dbms[name] = dbms[current_dbm].copy()], then
    [dbms[name].color = next(color_iter)], then [current_dbm = name];
    [None] when a lookup or a call raises. *)
Definition copy_as (name cur : string) (ss : session) : option session :=
  p ← dbms ss !! cur ≫= id;
  '(q, st1) ← obj_copy p (heap ss);
  let '(col, st2) := next_color st1 in
  '(_, st3) ← call (set_color col) q st2;
  Some (mkSession st3 (<[name := Some q]> (dbms ss)) (Some name)
                  (current_name ss)).

(** The [copy] command; [command] is the line split at the spaces, so
    [command[0]] is the word [copy].  Without a selected DBM, with more
    than one argument, or with a name that [name_re] rejects, it prints a
    message and changes nothing. *)
Definition copy_command (command : list string) (ss : session)
  : option session :=
  match current_dbm ss with
  | None => Some ss
  | Some cur =>
    match command with
    | [_] =>
      name ← copy_name (S (size (dbms ss))) (dbms ss) cur;
      copy_as name cur ss
    | [_; arg] =>
      if name_ok arg then copy_as arg cur ss else Some ss
    | _ => Some ss
    end
  end.

(** A session with one DBM on one clock, named [a] and selected. *)
Definition one_dbm_session : session :=
  mkSession (mkStore {[ 1%positive := [0;0;0;0] ]}
                     {[ 1%positive := mkObject 2 1%positive "red" ]} 1)
            {[ "a"%string := Some 1%positive ]} (Some "a"%string) 98.

(** ** [__str__]

    [__str__] compares the DBM with [DBM.true(self.clocks - 1)] and
    [DBM.false(self.clocks - 1)]; the colours these two constructors draw
    are the parameters [col1] and [col2] (that the global [color_iter]
    advances is not part of this model).  Integers are formatted in
    decimal, which is what [pretty] does. *)

(** A loop that appends to the list [c]. *)
Fixpoint for_acc {A B} (l : list A) (body : A → B → method B) (acc : B)
  : method B :=
  match l with
  | [] => ret acc
  | x :: l' => acc' ← body x acc; for_acc l' body acc'
  end.

(** [clock_names]; position 0 holds [None] and is never read. *)
Definition clock_names (n : Z) : list (option string) :=
  if n <=? 3 then [None; Some "x"; Some "y"]%string
  else None :: ((λ i, Some ("c" +:+ pretty i)%string) <$> range 1 n).

(** [clock_names[k]] inside an f-string. *)
Definition clock_name (names : list (option string)) (k : Z) : method string :=
  λ s, match (i ← py_index (length names) k; names !! i) with
       | Some nm => Returns (default "None"%string nm) s
       | None => Raises IndexError s
       end.

(** The body of the first loop of [__str__]. *)
Definition single_bounds (names : list (option string)) (c1 : Z)
    (c : list string) : method (list string) :=
  a ← getitem 0 c1;
  b ← getitem c1 0;
  if - a =? b then
    nm ← clock_name names c1;
    v ← getitem c1 0;
    ret (c ++ [nm +:+ "=" +:+ pretty v]%string)
  else
    u ← getitem 1 0;
    c ← (if negb (u =? infinity)
         then nm ← clock_name names c1;
              v ← getitem 1 0;
              ret (c ++ [nm +:+ "<=" +:+ pretty v]%string)
         else ret c);
    l ← getitem 0 1;
    if negb (l =? 0)
    then nm ← clock_name names c1;
         v ← getitem 0 1;
         ret (c ++ [nm +:+ ">=" +:+ pretty (- v)]%string)
    else ret c.

(** The body of the second, nested loop of [__str__]. *)
Definition difference_bounds (names : list (option string)) (c1 c2 : Z)
    (c : list string) : method (list string) :=
  a ← getitem c1 c2;
  b ← getitem c2 c1;
  if - a =? b then
    n1 ← clock_name names c1;
    n2 ← clock_name names c2;
    v ← getitem c1 c2;
    ret (c ++ [n1 +:+ "-" +:+ n2 +:+ "=" +:+ pretty v]%string)
  else
    u ← getitem 2 1;
    c ← (if negb (u =? infinity)
         then n2 ← clock_name names c2;
              n1 ← clock_name names c1;
              v ← getitem c2 c1;
              ret (c ++ [n2 +:+ "-" +:+ n1 +:+ "<=" +:+ pretty v]%string)
         else ret c);
    l ← getitem 1 2;
    if negb (l =? infinity)
    then n1 ← clock_name names c1;
         n2 ← clock_name names c2;
         v ← getitem c1 c2;
         ret (c ++ [n1 +:+ "-" +:+ n2 +:+ "<=" +:+ pretty v]%string)
    else ret c.

Definition str_ (col1 col2 : string) : method string :=
  λ self,
  match true_ (clocks self - 1) col1 with
  | Raises e _ => Raises e self
  | Returns _ t =>
    if eq_ self t then Returns "true"%string self
    else if eq_ self (false_ (clocks self - 1) col2)
    then Returns "false"%string self
    else
      (n ← self_clocks;
       let names := clock_names n in
       c ← for_acc (range 1 n) (single_bounds names) [];
       c ← for_acc (range 1 n) (λ c1 c,
             for_acc (range (c1 + 1) n) (λ c2 c,
               difference_bounds names c1 c2 c) c) c;
       ret (String.concat " and " c)) self
  end.

(** The constraints that [__str__] lists for one clock or one pair of
    clocks: [eq] when the two bounds [lo] and [hi] meet, else the two
    inequalities that are not trivial. *)
Definition constraint_text (lo hi : Z) (eq : string)
    (le1 : option string) (le2 : option string) : list string :=
  if - lo =? hi then [eq]
  else option_list le1 ++ option_list le2.

(** The text of a DBM on two clocks that is neither [true] nor [false]:
    [b = D[0,1]], [c = D[0,2]], [d = D[1,0]], [f = D[1,2]], [g = D[2,0]],
    [h = D[2,1]]. *)
Definition text_two_clocks (b c d f g h : Z) : string :=
  String.concat " and "
    (constraint_text b d ("x=" +:+ pretty d)
       (if d =? infinity then None else Some ("x<=" +:+ pretty d)%string)
       (if b =? 0 then None else Some ("x>=" +:+ pretty (- b))%string)
     ++ constraint_text c g ("y=" +:+ pretty g)
       (if d =? infinity then None else Some ("y<=" +:+ pretty d)%string)
       (if b =? 0 then None else Some ("y>=" +:+ pretty (- b))%string)
     ++ constraint_text f h ("x-y=" +:+ pretty f)
       (if h =? infinity then None else Some ("y-x<=" +:+ pretty h)%string)
       (if f =? infinity then None else Some ("x-y<=" +:+ pretty f)%string)).

(** ** The [new] command of the interpreter *)

(** A Python string stands here for its UTF-8 bytes; [chr n] is the
    one-character string of the code point [n] (surrogates are written
    with the same three-byte scheme, so that distinct code points are
    distinct strings). *)
Definition byte (n : Z) : Ascii.ascii := Ascii.ascii_of_nat (Z.to_nat n).

Definition chr (n : Z) : string :=
  if n <? 128 then String.String (byte n) String.EmptyString
  else if n <? 2048 then
    String.String (byte (192 + n / 64))
      (String.String (byte (128 + n mod 64)) String.EmptyString)
  else if n <? 65536 then
    String.String (byte (224 + n / 4096))
      (String.String (byte (128 + (n / 64) mod 64))
         (String.String (byte (128 + n mod 64)) String.EmptyString))
  else
    String.String (byte (240 + n / 262144))
      (String.String (byte (128 + (n / 4096) mod 64))
         (String.String (byte (128 + (n / 64) mod 64))
            (String.String (byte (128 + n mod 64)) String.EmptyString))).

(** [next_name()]: the name is the character [_current_name], which then
    advances to the next code point.  [chr(ord(_current_name) + 1)] raises
    ValueError at the last code point, 1114111, before the name is
    returned: that is the [None] here. *)
Definition next_name (ss : session) : option (string * session) :=
  let n := current_name ss in
  if (0 <=? n) && (n <? 1114111)
  then Some (chr n, mkSession (heap ss) (dbms ss) (current_dbm ss) (n + 1))
  else None.

(** The two loops of [DBM.true]. *)
Definition true_loops (n : Z) : method unit :=
  for_ (range 1 (n + 1)) (λ c1,
    for_ (range 0 (n + 1)) (λ c2, setitem c1 c2 infinity));;
  for_ (range 0 (n + 1)) (λ c2, setitem 0 c2 0).

(** [DBM.true(n)] in the store; [None] when a call raises. *)
Definition new_true (n : Z) (st : store) : option (positive * store) :=
  let '(q, st1) := new_DBM n st in
  '(r, st2) ← call (true_loops n) q st1;
  match r with
  | Returns _ _ => Some (q, st2)
  | Raises _ _ => None
  end.

(** [DBM.false(n)] in the store: the attribute [dbm] is bound to a new
    list. *)
Definition new_false (n : Z) (st : store) : option (positive * store) :=
  let '(q, st1) := new_DBM n st in
  let '(a, st2) := alloc_list (false_matrix n) st1 in
  o ← objects st2 !! q;
  Some (q, mkStore (lists st2)
                   (<[q := mkObject (o_clocks o) a (o_color o)]> (objects st2))
                   (color_iter st2)).

(** [dbms[name] = dbm], then [current_dbm = name]. *)
Definition bind_dbm (name : string) (dbm : option positive) (st : store)
    (ss : session) : session :=
  mkSession st (<[name := dbm]> (dbms ss)) (Some name) (current_name ss).

(** The [new] command; [command[0]] is the word [new].  The name is
    checked before the kind: a name that [name_re] rejects prints a
    message and sets [dbm = None], which is then stored and selected; an
    unknown kind prints a message and leaves the command. *)
Definition new_command (command : list string) (ss : session)
  : option session :=
  match command with
  | _ :: kind :: rest =>
    '(name, ss1) ← match rest with
                   | name :: _ => Some (name, ss)
                   | [] => next_name ss
                   end;
    if negb (name_ok name) then Some (bind_dbm name None (heap ss1) ss1)
    else if bool_decide (kind = "true"%string)
    then '(q, st) ← new_true 2 (heap ss1); Some (bind_dbm name (Some q) st ss1)
    else if bool_decide (kind = "false"%string)
    then '(q, st) ← new_false 2 (heap ss1); Some (bind_dbm name (Some q) st ss1)
    else if bool_decide (kind = "zero"%string)
    then let '(q, st) := new_DBM 2 (heap ss1) in
         Some (bind_dbm name (Some q) st ss1)
    else Some ss1
  | _ => Some ss
  end.

(** The matrix of [new <kind>]. *)
Definition kind_matrix (kind : string) : list Z :=
  if bool_decide (kind = "true"%string) then dbm (true2 "")
  else if bool_decide (kind = "false"%string) then false_matrix 2
  else replicate 9 0.

(** * Reasoning about method calls *)

Lemma bind_Returns {A B} (m : method A) (k : A → method B) s a s' :
  m s = Returns a s' → (m ≫= k) s = k a s'.
Proof. intros H. unfold mbind, method_bind. by rewrite H. Qed.

Lemma bind_Raises {A B} (m : method A) (k : A → method B) s e s' :
  m s = Raises e s' → (m ≫= k) s = Raises e s'.
Proof. intros H. unfold mbind, method_bind. by rewrite H. Qed.

Lemma bind_assoc {A B C} (m : method A) (f : A → method B) (g : B → method C) s :
  ((m ≫= f) ≫= g) s = (m ≫= λ x, f x ≫= g) s.
Proof. unfold mbind, method_bind. by destruct (m s). Qed.

Lemma ret_bind {A B} (a : A) (k : A → method B) s : (ret a ≫= k) s = k a s.
Proof. done. Qed.

Lemma getitem_Some i j n l col v :
  py_get l (i * n + j) = Some v →
  getitem i j (mkDBM n l col) = Returns v (mkDBM n l col).
Proof. intros H. unfold getitem. cbn. by rewrite H. Qed.

Lemma setitem_Some i j v n l col l' :
  py_set l (i * n + j) v = Some l' →
  setitem i j v (mkDBM n l col) = Returns tt (mkDBM n l' col).
Proof. intros H. unfold setitem. cbn. by rewrite H. Qed.

Lemma py_index_nonneg len i :
  0 <= i < Z.of_nat len → py_index len i = Some (Z.to_nat i).
Proof.
  intros Hi. unfold py_index.
  destruct (Z.leb_spec 0 i); [|lia].
  by destruct (Z.ltb_spec i (Z.of_nat len)); [|lia].
Qed.

Lemma py_get_nonneg l i :
  0 <= i < Z.of_nat (length l) → py_get l i = l !! Z.to_nat i.
Proof. intros Hi. unfold py_get. by rewrite py_index_nonneg. Qed.

Lemma py_set_same l i x l' :
  py_get l i = Some x → py_set l i x = Some l' → l' = l.
Proof.
  unfold py_get, py_set. destruct (py_index (length l) i) as [k|]; cbn; [|done].
  intros Hx [= <-]. by apply list_insert_id.
Qed.

(** Case analysis on [x ∈ [x1; ...; xn]]. *)
Ltac cases_of H :=
  repeat (apply elem_of_cons in H as [-> | H]);
  [.. | by apply elem_of_nil in H].

Lemma range_0_3 : range 0 3 = [0; 1; 2].
Proof. reflexivity. Qed.

Lemma range_1_3 : range 1 3 = [1; 2].
Proof. reflexivity. Qed.

Lemma true_2 col : true_ 2 col = Returns tt (true2 col).
Proof. vm_compute. reflexivity. Qed.

(** ** One iteration of [canonize] *)

Lemma canonize_pair_spec n l col c1 c2 x p q l' :
  c1 ≠ c2 →
  py_get l (c1 * n + c2) = Some x →
  py_get l (c1 * n + (n - c1 - c2)) = Some p →
  py_get l ((n - c1 - c2) * n + c2) = Some q →
  py_set l (c1 * n + c2) (shorten x p q) = Some l' →
  canonize_pair n c1 c2 (mkDBM n l col) = Returns tt (mkDBM n l' col).
Proof.
  intros Hne Hx Hp Hq Hset. unfold canonize_pair.
  destruct (Z.eqb_spec c1 c2) as [?|_]; [done|]. cbv zeta.
  rewrite (bind_Returns _ _ _ _ _ (getitem_Some _ _ _ _ _ _ Hx)).
  rewrite (bind_Returns _ _ _ _ _ (getitem_Some _ _ _ _ _ _ Hp)).
  rewrite (bind_Returns _ _ _ _ _ (getitem_Some _ _ _ _ _ _ Hq)).
  unfold shorten in Hset.
  destruct (x >? p + q).
  2:{ by rewrite (py_set_same _ _ _ _ Hx Hset). }
  rewrite (bind_Returns _ _ _ _ _ (getitem_Some _ _ _ _ _ _ Hp)).
  unfold path_sum in Hset.
  destruct (p =? infinity) eqn:Ep; cbn [negb andb] in *.
  - rewrite (bind_Returns _ _ _ false (mkDBM n l col)) by done.
    rewrite (bind_Returns _ _ _ infinity (mkDBM n l col)) by done.
    by apply setitem_Some.
  - rewrite (bind_Returns _ _ _ (negb (q =? infinity)) (mkDBM n l col)).
    2:{ by rewrite (bind_Returns _ _ _ _ _ (getitem_Some _ _ _ _ _ _ Hq)). }
    destruct (q =? infinity); cbn [negb] in *.
    + rewrite (bind_Returns _ _ _ infinity (mkDBM n l col)) by done.
      by apply setitem_Some.
    + rewrite (bind_Returns _ _ _ (p + q) (mkDBM n l col)).
      2:{ rewrite (bind_Returns _ _ _ _ _ (getitem_Some _ _ _ _ _ _ Hp)).
          by rewrite (bind_Returns _ _ _ _ _ (getitem_Some _ _ _ _ _ _ Hq)). }
      by apply setitem_Some.
Qed.

(** ** [canonize] and [is_consistent] on three clocks *)

Lemma canonize_pass a b c d e f g h i col :
  canonize (mkDBM 3 [a;b;c;d;e;f;g;h;i] col) =
  let '(b', c', d', f', g', h') := pass b c d f g h in
  Returns tt (mkDBM 3 [a;b';c';d';e;f';g';h';i] col).
Proof.
  unfold pass. cbv zeta. unfold canonize.
  rewrite (bind_Returns _ _ _ 3 (mkDBM 3 [a;b;c;d;e;f;g;h;i] col)) by done.
  rewrite range_0_3. cbn [for_].
  repeat first
    [ rewrite bind_assoc
    | rewrite ret_bind
    | erewrite (bind_Returns (canonize_pair 3 _ _));
      [| first [ done | eapply canonize_pair_spec; [done | reflexivity ..] ] ];
      cbn [py_set py_index] ].
  done.
Qed.

Lemma consistent_pair_spec c1 c2 n l col x y :
  py_get l (c1 * n + c2) = Some x →
  py_get l (c2 * n + c1) = Some y →
  (a ← getitem c1 c2; b ← getitem c2 c1;
   if - a >? b then ret (Some false) else ret None) (mkDBM n l col)
  = Returns (if - x >? y then Some false else None) (mkDBM n l col).
Proof.
  intros Hx Hy.
  rewrite (bind_Returns _ _ _ _ _ (getitem_Some _ _ _ _ _ _ Hx)).
  rewrite (bind_Returns _ _ _ _ _ (getitem_Some _ _ _ _ _ _ Hy)).
  by destruct (- x >? y).
Qed.

Lemma for_return_pure {A R} (l : list A) (body : A → method (option R))
    (f : A → option R) s :
  (∀ x, x ∈ l → body x s = Returns (f x) s) →
  for_return l body s = Returns (first_some f l) s.
Proof.
  induction l as [|x l IH]; intros Hb; [done|]. cbn [for_return first_some].
  rewrite (bind_Returns _ _ _ _ _ (Hb x ltac:(left))).
  destruct (f x); [done|]. apply IH. intros y Hy. apply Hb. by right.
Qed.

Lemma is_consistent_3x3 a b c d e f g h i col :
  is_consistent (mkDBM 3 [a;b;c;d;e;f;g;h;i] col) =
  Returns (consistent3 a b c d e f g h i) (mkDBM 3 [a;b;c;d;e;f;g;h;i] col).
Proof.
  set (l := [a;b;c;d;e;f;g;h;i]).
  set (viol := λ c1 c2 : Z,
         match py_get l (c1 * 3 + c2), py_get l (c2 * 3 + c1) with
         | Some x, Some y => if - x >? y then Some false else None
         | _, _ => None
         end).
  unfold is_consistent.
  rewrite (bind_Returns _ _ _ 3 (mkDBM 3 l col)) by done.
  rewrite range_0_3.
  erewrite bind_Returns.
  2:{ apply (for_return_pure _ _ (λ c1, first_some (viol c1) [0; 1; 2])).
      intros c1 H1. apply for_return_pure. intros c2 H2.
      cases_of H1; cases_of H2; by erewrite consistent_pair_spec by reflexivity. }
  subst viol l. cbv -[Z.gtb Z.opp].
  repeat match goal with
         | |- context [ - ?x >? ?y ] => destruct (- x >? y); [done|]
         end.
  done.
Qed.

(** ** [leq], [reset] and the extrapolations, step by step *)

Lemma leq_spec i j v n l col x l1 ok :
  py_get l (i * n + j) = Some x →
  py_set l (i * n + j) (Z.min x v) = Some l1 →
  is_consistent (mkDBM n l1 col) = Returns ok (mkDBM n l1 col) →
  leq i j v (mkDBM n l col) =
  if ok then canonize (mkDBM n l1 col) else Raises TypeError (mkDBM n l1 col).
Proof.
  intros Hx Hset Hok. unfold leq.
  rewrite (bind_Returns _ _ _ _ _ (getitem_Some _ _ _ _ _ _ Hx)).
  rewrite (bind_Returns _ _ _ _ _ (setitem_Some _ _ _ _ _ _ _ Hset)).
  rewrite (bind_Returns _ _ _ _ _ Hok).
  destruct ok; cbn [negb]; [by rewrite ret_bind|].
  apply bind_Raises. by apply bind_Raises.
Qed.

Lemma extrapolate_pair_spec M x1 x2 n l col x m1 m2 l' :
  x1 ≠ x2 →
  py_get l (x1 * n + x2) = Some x →
  py_get M x1 = Some m1 →
  py_get M x2 = Some m2 →
  py_set l (x1 * n + x2) (extrapolated x m1 m2) = Some l' →
  extrapolate_pair M x1 x2 (mkDBM n l col) = Returns tt (mkDBM n l' col).
Proof.
  intros Hne Hx H1 H2 Hset. unfold extrapolate_pair.
  destruct (Z.eqb_spec x1 x2) as [?|_]; [done|].
  assert (∀ k m, py_get M k = Some m →
            index M k (mkDBM n l col) = Returns m (mkDBM n l col)) as Hidx.
  { intros k m Hk. unfold index. by rewrite Hk. }
  rewrite (bind_Returns _ _ _ _ _ (getitem_Some _ _ _ _ _ _ Hx)).
  rewrite (bind_Returns _ _ _ _ _ (Hidx _ _ H1)).
  unfold extrapolated in Hset.
  destruct (x >? m1); [by apply setitem_Some|].
  rewrite (bind_Returns _ _ _ _ _ (getitem_Some _ _ _ _ _ _ Hx)).
  rewrite (bind_Returns _ _ _ _ _ (Hidx _ _ H2)).
  destruct (- x >? m2).
  - rewrite (bind_Returns _ _ _ _ _ (Hidx _ _ H2)). by apply setitem_Some.
  - by rewrite (py_set_same _ _ _ _ Hx Hset).
Qed.

Lemma lu_extrapolate_pair_spec L U x1 x2 n l col x l1 u2 l' :
  x1 ≠ x2 →
  py_get l (x1 * n + x2) = Some x →
  py_get L x1 = Some l1 →
  py_get U x2 = Some u2 →
  py_set l (x1 * n + x2) (extrapolated x l1 u2) = Some l' →
  lu_extrapolate_pair L U x1 x2 (mkDBM n l col) = Returns tt (mkDBM n l' col).
Proof.
  intros Hne Hx H1 H2 Hset. unfold lu_extrapolate_pair.
  destruct (Z.eqb_spec x1 x2) as [?|_]; [done|].
  assert (∀ K k m, py_get K k = Some m →
            index K k (mkDBM n l col) = Returns m (mkDBM n l col)) as Hidx.
  { intros K k m Hk. unfold index. by rewrite Hk. }
  rewrite (bind_Returns _ _ _ _ _ (getitem_Some _ _ _ _ _ _ Hx)).
  rewrite (bind_Returns _ _ _ _ _ (Hidx _ _ _ H1)).
  unfold extrapolated in Hset.
  destruct (x >? l1); [by apply setitem_Some|].
  rewrite (bind_Returns _ _ _ _ _ (getitem_Some _ _ _ _ _ _ Hx)).
  rewrite (bind_Returns _ _ _ _ _ (Hidx _ _ _ H2)).
  destruct (- x >? u2).
  - rewrite (bind_Returns _ _ _ _ _ (Hidx _ _ _ H2)). by apply setitem_Some.
  - by rewrite (py_set_same _ _ _ _ Hx Hset).
Qed.

(** The loops of [extrapolate] on three clocks. *)
Lemma extrapolate_3x3 m0 m1 m2 a b c d e f g h i col :
  extrapolate [m0; m1; m2] (mkDBM 3 [a;b;c;d;e;f;g;h;i] col) =
  canonize (mkDBM 3 [a; extrapolated b m0 m1; extrapolated c m0 m2;
                     extrapolated d m1 m0; e; extrapolated f m1 m2;
                     extrapolated g m2 m0; extrapolated h m2 m1; i] col).
Proof.
  unfold extrapolate. cbn [for_].
  repeat first
    [ rewrite bind_assoc
    | rewrite ret_bind
    | erewrite (bind_Returns (extrapolate_pair _ _ _));
      [| first [ done | eapply extrapolate_pair_spec; [done | reflexivity ..] ] ];
      cbn [py_set py_index] ].
  done.
Qed.

Lemma lu_extrapolate_3x3 l0 l1 l2 u0 u1 u2 a b c d e f g h i col :
  lu_extrapolate [l0; l1; l2] [u0; u1; u2] (mkDBM 3 [a;b;c;d;e;f;g;h;i] col) =
  canonize (mkDBM 3 [a; extrapolated b l0 u1; extrapolated c l0 u2;
                     extrapolated d l1 u0; e; extrapolated f l1 u2;
                     extrapolated g l2 u0; extrapolated h l2 u1; i] col).
Proof.
  unfold lu_extrapolate. cbn [for_].
  repeat first
    [ rewrite bind_assoc
    | rewrite ret_bind
    | erewrite (bind_Returns (lu_extrapolate_pair _ _ _ _));
      [| first [ done | eapply lu_extrapolate_pair_spec; [done | reflexivity ..] ] ];
      cbn [py_set py_index] ].
  done.
Qed.

(** The assignments of [reset] on three clocks. *)
Lemma reset_1_3x3 v a b c d e f g h i col :
  reset 1 v (mkDBM 3 [a;b;c;d;e;f;g;h;i] col) =
  canonize (mkDBM 3 [a;v;c; v;e;infinity; g;infinity;i] col).
Proof.
  unfold reset.
  erewrite bind_Returns by (by apply setitem_Some).
  erewrite bind_Returns by (by apply setitem_Some).
  erewrite (bind_Returns self_clocks) by done.
  cbn [clocks]. rewrite range_1_3. cbn [for_ py_set py_index Z.eqb negb Pos.eqb].
  repeat first
    [ rewrite bind_assoc
    | rewrite ret_bind
    | erewrite (bind_Returns (setitem _ _ _)) by (by apply setitem_Some) ].
  done.
Qed.

Lemma reset_2_3x3 v a b c d e f g h i col :
  reset 2 v (mkDBM 3 [a;b;c;d;e;f;g;h;i] col) =
  canonize (mkDBM 3 [a;b;v; d;e;infinity; v;infinity;i] col).
Proof.
  unfold reset.
  erewrite bind_Returns by (by apply setitem_Some).
  erewrite bind_Returns by (by apply setitem_Some).
  erewrite (bind_Returns self_clocks) by done.
  cbn [clocks]. rewrite range_1_3. cbn [for_ py_set py_index Z.eqb negb Pos.eqb].
  repeat first
    [ rewrite bind_assoc
    | rewrite ret_bind
    | erewrite (bind_Returns (setitem _ _ _)) by (by apply setitem_Some) ].
  done.
Qed.

(** * Tightness on three clocks *)

Lemma shorten_cases x u v :
  (shorten x u v = x ∧ x <= u + v)
  ∨ (shorten x u v = u + v ∧ u + v < x ∧ u ≠ infinity ∧ v ≠ infinity)
  ∨ (shorten x u v = infinity ∧ u + v < x ∧ (u = infinity ∨ v = infinity)).
Proof.
  unfold shorten, path_sum.
  destruct (Z.gtb_spec x (u + v)); [|left; lia].
  destruct (Z.eqb_spec u infinity), (Z.eqb_spec v infinity); cbn; lia.
Qed.

Ltac by_shorten_cases x u v :=
  destruct (shorten_cases x u v) as [[-> ?] | [[-> ?] | [-> ?]]]; lia.

Lemma tight_fix x u v : tight x u v → shorten x u v = x.
Proof. unfold tight. by_shorten_cases x u v. Qed.

Lemma fix_tight x u v : shorten x u v = x → tight x u v.
Proof.
  unfold tight. destruct (shorten_cases x u v) as [[-> ?] | [[-> ?] | [-> ?]]]; lia.
Qed.

Lemma tight_own x u v : tight (shorten x u v) u v.
Proof. unfold tight. by_shorten_cases x u v. Qed.

(** Shortening [x = D[i,j]] through [k] keeps [D[i,k]] tight through [j] ... *)
Lemma tight_op_l u x vb v :
  x <= infinity → 0 <= v + vb → tight u x vb → tight u (shorten x u v) vb.
Proof. unfold tight. by_shorten_cases x u v. Qed.

(** ... and [D[k,j]] tight through [i]. *)
Lemma tight_op_r v ub x u :
  x <= infinity → 0 <= u + ub → tight v ub x → tight v ub (shorten x u v).
Proof. unfold tight. by_shorten_cases x u v. Qed.

Section sane_steps.
Variables b c d f g h : Z.
Hypothesis S : sane b c d f g h.

Lemma sane_b : sane (shorten b c h) c d f g h.
Proof using S. revert S. unfold sane. by_shorten_cases b c h. Qed.
Lemma sane_c : sane b (shorten c b f) d f g h.
Proof using S. revert S. unfold sane. by_shorten_cases c b f. Qed.
Lemma sane_d : sane b c (shorten d f g) f g h.
Proof using S. revert S. unfold sane. by_shorten_cases d f g. Qed.
Lemma sane_f : sane b c d (shorten f d c) g h.
Proof using S. revert S. unfold sane. by_shorten_cases f d c. Qed.
Lemma sane_g : sane b c d f (shorten g h d) h.
Proof using S. revert S. unfold sane. by_shorten_cases g h d. Qed.
Lemma sane_h : sane b c d f g (shorten h g b).
Proof using S. revert S. unfold sane. by_shorten_cases h g b. Qed.
End sane_steps.

(** One pass of [canonize] makes every pair tight when there is no
    negative cycle: a later store never undoes an earlier one. *)
Lemma pass_tight b c d f g h :
  sane b c d f g h →
  let '(b', c', d', f', g', h') := pass b c d f g h in
  sane b' c' d' f' g' h' ∧ all_tight b' c' d' f' g' h'.
Proof.
  intros S0. unfold pass.
  set (b1 := shorten b c h).
  pose proof (sane_b _ _ _ _ _ _ S0) as S1. fold b1 in S1.
  pose proof (tight_own b c h) as Tb. fold b1 in Tb.
  set (c1 := shorten c b1 f).
  pose proof (sane_c _ _ _ _ _ _ S1) as S2. fold c1 in S2.
  pose proof (tight_own c b1 f) as Tc. fold c1 in Tc.
  assert (tight b1 c1 h) as Tb1.
  { apply tight_op_l; [unfold sane in *; lia ..|done]. }
  set (d1 := shorten d f g).
  pose proof (sane_d _ _ _ _ _ _ S2) as S3. fold d1 in S3.
  pose proof (tight_own d f g) as Td. fold d1 in Td.
  set (f1 := shorten f d1 c1).
  pose proof (sane_f _ _ _ _ _ _ S3) as S4. fold f1 in S4.
  pose proof (tight_own f d1 c1) as Tf. fold f1 in Tf.
  assert (tight d1 f1 g) as Td1.
  { apply tight_op_l; [unfold sane in *; lia ..|done]. }
  assert (tight c1 b1 f1) as Tc1.
  { apply tight_op_r; [unfold sane in *; lia ..|done]. }
  set (g1 := shorten g h d1).
  pose proof (sane_g _ _ _ _ _ _ S4) as S5. fold g1 in S5.
  pose proof (tight_own g h d1) as Tg. fold g1 in Tg.
  assert (tight d1 f1 g1) as Td2.
  { apply tight_op_r; [unfold sane in *; lia ..|done]. }
  set (h1 := shorten h g1 b1).
  pose proof (sane_h _ _ _ _ _ _ S5) as S6. fold h1 in S6.
  pose proof (tight_own h g1 b1) as Th. fold h1 in Th.
  assert (tight g1 h1 d1) as Tg1.
  { apply tight_op_l; [unfold sane in *; lia ..|done]. }
  assert (tight b1 c1 h1) as Tb2.
  { apply tight_op_r; [unfold sane in *; lia ..|done]. }
  unfold all_tight. done.
Qed.

Lemma pass_fixed b c d f g h :
  all_tight b c d f g h → pass b c d f g h = (b, c, d, f, g, h).
Proof.
  intros (Tb & Tc & Td & Tf & Tg & Th). unfold pass.
  rewrite (tight_fix _ _ _ Tb), (tight_fix _ _ _ Tc), (tight_fix _ _ _ Td).
  by rewrite (tight_fix _ _ _ Tf), (tight_fix _ _ _ Tg), (tight_fix _ _ _ Th).
Qed.

(** A tight matrix is a fixed point of [canonize]. *)
Lemma canonize_fixed a b c d e f g h i col :
  all_tight b c d f g h →
  canonize (mkDBM 3 [a;b;c;d;e;f;g;h;i] col) =
  Returns tt (mkDBM 3 [a;b;c;d;e;f;g;h;i] col).
Proof. intros T. rewrite canonize_pass. by rewrite (pass_fixed _ _ _ _ _ _ T). Qed.

(** ... and conversely. *)
Lemma fixed_tight a b c d e f g h i col :
  canonize (mkDBM 3 [a;b;c;d;e;f;g;h;i] col) =
  Returns tt (mkDBM 3 [a;b;c;d;e;f;g;h;i] col) →
  all_tight b c d f g h.
Proof.
  rewrite canonize_pass. unfold pass. intros [= Hb Hc Hd Hf Hg Hh].
  rewrite Hb in Hc, Hf, Hh. rewrite Hc in Hf. rewrite Hd in Hf, Hg, Hh.
  rewrite Hg in Hh.
  unfold all_tight. repeat split; by apply fix_tight.
Qed.

(** One pass reaches the fixed point when there is no negative cycle. *)
Lemma canonize_idempotent a b c d e f g h i col :
  sane b c d f g h →
  ∃ D', canonize (mkDBM 3 [a;b;c;d;e;f;g;h;i] col) = Returns tt D'
        ∧ canonize D' = Returns tt D'.
Proof.
  intros S. rewrite canonize_pass.
  pose proof (pass_tight _ _ _ _ _ _ S) as HT.
  destruct (pass b c d f g h) as [[[[[b' c'] d'] f'] g'] h'].
  destruct HT as [_ T]. eexists. split; [done|]. by apply canonize_fixed.
Qed.

Lemma tight_ext_add x u v :
  x <= infinity → tight x u v → x <= ext_add u v.
Proof.
  unfold tight, ext_add.
  destruct (Z.eqb_spec u infinity), (Z.eqb_spec v infinity); cbn; lia.
Qed.

Lemma closed_3x3 b c d f g h col :
  sane b c d f g h → all_tight b c d f g h →
  closed (mkDBM 3 [0;b;c;d;0;f;g;h;0] col).
Proof.
  intros (Hle & H2 & H3) (Tb & Tc & Td & Tf & Tg & Th) i j k x u v Hi Hj Hk.
  cbn in Hi, Hj, Hk. unfold entry. cbn [clocks dbm].
  assert (i = 0 ∨ i = 1 ∨ i = 2) as Hi' by lia.
  assert (j = 0 ∨ j = 1 ∨ j = 2) as Hj' by lia.
  assert (k = 0 ∨ k = 1 ∨ k = 2) as Hk' by lia.
  destruct Hi' as [-> | [-> | ->]], Hj' as [-> | [-> | ->]], Hk' as [-> | [-> | ->]];
    cbn; intros [= <-] [= <-] [= <-];
    first [ apply tight_ext_add; [lia | done]
          | unfold ext_add, infinity in *;
            repeat match goal with
                   | |- context [ ?p =? ?q ] => destruct (Z.eqb_spec p q)
                   end; cbn; lia ].
Qed.

(** * Methods that ignore the colour *)

Lemma cb_ret {A} (a : A) : colour_blind (ret a).
Proof. done. Qed.

Lemma cb_raise {A} e : colour_blind (@raise A e).
Proof. done. Qed.

Lemma cb_bind {A B} (m : method A) (k : A → method B) :
  colour_blind m → (∀ a, colour_blind (k a)) → colour_blind (m ≫= k).
Proof.
  intros Hm Hk s c. unfold mbind, method_bind. rewrite Hm.
  destruct (m s); cbn; [apply Hk | done].
Qed.

Lemma cb_self_clocks : colour_blind self_clocks.
Proof. done. Qed.

Lemma cb_set_dbm l : colour_blind (set_dbm l).
Proof. done. Qed.

Lemma cb_getitem i j : colour_blind (getitem i j).
Proof. intros s c. unfold getitem. cbn. by destruct (py_get _ _). Qed.

Lemma cb_setitem i j v : colour_blind (setitem i j v).
Proof. intros s c. unfold setitem. cbn. by destruct (py_set _ _ _). Qed.

Lemma cb_index l k : colour_blind (index l k).
Proof. intros s c. unfold index. by destruct (py_get _ _). Qed.

Lemma cb_call1 {A} (f : Z → A) args : colour_blind (call1 f args).
Proof. by destruct args as [|? [|? ?]]. Qed.

Lemma cb_for {A} (l : list A) (body : A → method unit) :
  (∀ x, colour_blind (body x)) → colour_blind (for_ l body).
Proof.
  intros Hb. induction l as [|x l IH]; [done|]. cbn [for_].
  apply cb_bind; [apply Hb | done].
Qed.

Lemma cb_for_return {A R} (l : list A) (body : A → method (option R)) :
  (∀ x, colour_blind (body x)) → colour_blind (for_return l body).
Proof.
  intros Hb. induction l as [|x l IH]; [done|]. cbn [for_return].
  apply cb_bind; [apply Hb|]. by intros [v|].
Qed.

Ltac colour_blind_tac :=
  repeat first
    [ apply cb_ret | apply cb_raise | apply cb_self_clocks | apply cb_set_dbm
    | apply cb_getitem | apply cb_setitem | apply cb_index | apply cb_call1
    | apply cb_bind; [|intros ?]
    | apply cb_for; intros ?
    | apply cb_for_return; intros ?
    | match goal with
      | |- colour_blind (if ?b then _ else _) => destruct b
      | |- colour_blind (let _ := _ in _) => cbv zeta
      end ].

Lemma cb_is_consistent : colour_blind is_consistent.
Proof. unfold is_consistent. colour_blind_tac. Qed.

Lemma cb_canonize_pair n c1 c2 : colour_blind (canonize_pair n c1 c2).
Proof. unfold canonize_pair. colour_blind_tac. Qed.

Lemma cb_canonize : colour_blind canonize.
Proof. unfold canonize. colour_blind_tac. apply cb_canonize_pair. Qed.

Lemma cb_leq i j v : colour_blind (leq i j v).
Proof.
  unfold leq. colour_blind_tac; apply cb_canonize_pair.
Qed.

Lemma cb_free i j : colour_blind (free i j).
Proof. unfold free. colour_blind_tac. Qed.

Lemma cb_reset c v : colour_blind (reset c v).
Proof. unfold reset. colour_blind_tac; apply cb_canonize_pair. Qed.

Lemma zip_same_forallb (l : list Z) :
  forallb (λ ab, ab.1 =? ab.2) (zip l l) = true.
Proof. induction l as [|x l IH]; [done|]. cbn. by rewrite Z.eqb_refl. Qed.

(** * Objects that share nothing *)

Lemma view_Some st p d :
  view st p = Some d →
  ∃ o, objects st !! p = Some o
       ∧ lists st !! o_dbm o = Some (dbm d)
       ∧ d = mkDBM (o_clocks o) (dbm d) (o_color o).
Proof.
  unfold view. destruct (objects st !! p) as [o|]; [|done]. cbn.
  destruct (lists st !! o_dbm o) as [l|] eqn:Hl; [|done]. cbn.
  intros [= <-]. by exists o.
Qed.

Lemma view_intro st p o l :
  objects st !! p = Some o → lists st !! o_dbm o = Some l →
  view st p = Some (mkDBM (o_clocks o) l (o_color o)).
Proof. intros Ho Hl. unfold view. rewrite Ho. cbn. by rewrite Hl. Qed.

(** A call on one object leaves an object with another address and
    another list as it is. *)
Lemma call_frame {A} (m : method A) p st r st' p' o' :
  call m p st = Some (r, st') →
  objects st !! p' = Some o' →
  p' ≠ p →
  (∀ o, objects st !! p = Some o → o_dbm o ≠ o_dbm o') →
  view st' p' = view st p'.
Proof.
  unfold call. intros Hcall Ho' Hne Hl.
  destruct (objects st !! p) as [o|] eqn:Ho; [|done]. cbn in Hcall.
  destruct (lists st !! o_dbm o) as [l|]; [|done]. cbn in Hcall.
  injection Hcall as _ <-. unfold view. cbn.
  rewrite lookup_insert_ne by done. rewrite Ho'. cbn.
  rewrite lookup_insert_ne; [done|]. by apply Hl.
Qed.

Lemma call_Some {A} (m : method A) p st d :
  view st p = Some d → ∃ r st', call m p st = Some (r, st').
Proof.
  intros Hv. destruct (view_Some _ _ _ Hv) as (o & Ho & Hl & _).
  unfold call. rewrite Ho. cbn. rewrite Hl. cbn. by repeat eexists.
Qed.

Lemma fresh_lookup_ne {V} (m : gmap positive V) k v :
  m !! k = Some v → k ≠ fresh (dom m).
Proof.
  intros Hk ->. apply (is_fresh (dom m)). apply elem_of_dom. by exists v.
Qed.

(** What [copy] builds: the copy [q] has its own list [a2]. *)
Lemma obj_copy_spec st p o l :
  objects st !! p = Some o → lists st !! o_dbm o = Some l →
  ∃ q a2 st',
    obj_copy p st = Some (q, st')
    ∧ q ≠ p ∧ a2 ≠ o_dbm o
    ∧ objects st' !! p = Some o
    ∧ lists st' !! o_dbm o = Some l
    ∧ objects st' !! q = Some (mkObject (o_clocks o - 1 + 1) a2 (o_color o))
    ∧ lists st' !! a2 = Some l.
Proof.
  intros Ho Hl. unfold obj_copy. rewrite Ho. cbn. rewrite Hl. cbn.
  unfold new_DBM, alloc_list, next_color, alloc_object. cbn.
  set (zeros := replicate _ 0).
  set (a := fresh (dom (lists st))).
  set (q := fresh (dom (objects st))).
  set (a2 := fresh (dom (<[a:=zeros]> (lists st)))).
  rewrite lookup_insert_eq. cbn.
  assert (p ≠ q) as Hpq by (by eapply fresh_lookup_ne).
  assert (o_dbm o ≠ a) as Hla by (by eapply fresh_lookup_ne).
  assert (o_dbm o ≠ a2) as Hla2.
  { eapply (fresh_lookup_ne (<[a:=zeros]> (lists st))).
    by rewrite lookup_insert_ne. }
  exists q, a2. eexists. split; [done|]. cbn.
  split; [done|]. split; [done|].
  rewrite !lookup_insert_ne by done. rewrite !lookup_insert_eq. done.
Qed.

(** * What the mutators return on two clocks *)

Lemma reset_split clock value s :
  reset clock value s = (reset_assignments clock value;; canonize) s.
Proof.
  unfold reset, reset_assignments, mbind, method_bind.
  destruct (setitem clock 0 value s) as [[] s1|]; [|done].
  destruct (setitem 0 clock value s1) as [[] s2|]; [|done].
  destruct (self_clocks s2) as [n s3|]; [|done].
  by destruct (for_ _ _ s3).
Qed.

Lemma free_3x3 i j a b c d e f g h k col :
  0 <= i < 3 → 0 <= j < 3 → i ≠ j →
  ∃ b1 c1 d1 f1 g1 h1,
    free i j (mkDBM 3 [a;b;c;d;e;f;g;h;k] col) =
    Returns tt (mkDBM 3 [a;b1;c1;d1;e;f1;g1;h1;k] col).
Proof.
  intros Hi Hj Hne.
  assert (i = 0 ∨ i = 1 ∨ i = 2) as [-> | [-> | ->]] by lia;
    assert (j = 0 ∨ j = 1 ∨ j = 2) as [-> | [-> | ->]] by lia;
    try done; repeat eexists; reflexivity.
Qed.

(** A mutator that ends with [canonize] returns what [canonize] returns
    on a matrix with the same diagonal. *)
Lemma canonizing_output op a b c d e f g h k col D' :
  canonizing op →
  op (mkDBM 3 [a;b;c;d;e;f;g;h;k] col) = Returns tt D' →
  ∃ b1 c1 d1 f1 g1 h1,
    canonize (mkDBM 3 [a;b1;c1;d1;e;f1;g1;h1;k] col) = Returns tt D'.
Proof.
  intros [|i j v Hi Hj Hne|cl v Hcl|i j Hi Hj Hne|m0 m1 m2|l0 l1 l2 u0 u1 u2] Hop.
  - by repeat eexists.
  - assert (i = 0 ∨ i = 1 ∨ i = 2) as [-> | [-> | ->]] by lia;
      assert (j = 0 ∨ j = 1 ∨ j = 2) as [-> | [-> | ->]] by lia;
      try done;
      (erewrite leq_spec in Hop;
         [| reflexivity | reflexivity | apply is_consistent_3x3 ]);
      (destruct (consistent3 _ _ _ _ _ _ _ _ _); [|done]);
      repeat eexists; exact Hop.
  - destruct Hcl as [-> | ->].
    + rewrite reset_1_3x3 in Hop. by repeat eexists.
    + rewrite reset_2_3x3 in Hop. by repeat eexists.
  - destruct (free_3x3 i j a b c d e f g h k col Hi Hj Hne)
      as (b1 & c1 & d1 & f1 & g1 & h1 & Hfree).
    unfold free_command in Hop.
    rewrite (bind_Returns _ _ _ _ _ Hfree) in Hop. by repeat eexists.
  - rewrite extrapolate_3x3 in Hop. by repeat eexists.
  - rewrite lu_extrapolate_3x3 in Hop. by repeat eexists.
Qed.

(** Every mutator keeps the dimension, the colour and the diagonal. *)
Lemma mutator_diagonal op a b c d e f g h k col D' :
  mutator op →
  op (mkDBM 3 [a;b;c;d;e;f;g;h;k] col) = Returns tt D' →
  ∃ b1 c1 d1 f1 g1 h1, D' = mkDBM 3 [a;b1;c1;d1;e;f1;g1;h1;k] col.
Proof.
  intros [op' Hcz|i j Hi Hj Hne| |] Hop.
  - destruct (canonizing_output _ _ _ _ _ _ _ _ _ _ _ _ Hcz Hop)
      as (b1 & c1 & d1 & f1 & g1 & h1 & Hcan).
    rewrite canonize_pass in Hcan.
    destruct (pass b1 c1 d1 f1 g1 h1) as [[[[[b2 c2] d2] f2] g2] h2].
    injection Hcan as <-. by repeat eexists.
  - destruct (free_3x3 i j a b c d e f g h k col Hi Hj Hne)
      as (b1 & c1 & d1 & f1 & g1 & h1 & Hfree).
    rewrite Hfree in Hop. injection Hop as <-. by repeat eexists.
  - injection Hop as <-. by repeat eexists.
  - injection Hop as <-. by repeat eexists.
Qed.

(** * The mutators return fixed points of [canonize] *)

Lemma consistent3_true a b c d e f g h k :
  0 <= a → 0 <= e → 0 <= k →
  0 <= b + d → 0 <= c + g → 0 <= f + h →
  consistent3 a b c d e f g h k = true.
Proof.
  intros Ha He Hk Hbd Hcg Hfh. unfold consistent3. apply negb_true_iff.
  repeat (apply orb_false_iff; split);
    match goal with |- (?x >? ?y) = false =>
      destruct (Z.gtb_spec x y); [lia|done] end.
Qed.

(** [leq] with a bound that closes no negative cycle. *)
Lemma leq_fixed_3x3 i j v y p q a b c d e f g h k col :
  sane b c d f g h → 0 <= a → 0 <= e → 0 <= k →
  0 <= i < 3 → 0 <= j < 3 → i ≠ j →
  entry (mkDBM 3 [a;b;c;d;e;f;g;h;k] col) j i = Some y →
  entry (mkDBM 3 [a;b;c;d;e;f;g;h;k] col) j (3 - i - j) = Some p →
  entry (mkDBM 3 [a;b;c;d;e;f;g;h;k] col) (3 - i - j) i = Some q →
  - v <= y → 0 <= v + p + q →
  ∃ D', leq i j v (mkDBM 3 [a;b;c;d;e;f;g;h;k] col) = Returns tt D'
        ∧ canonize D' = Returns tt D'.
Proof.
  intros S Ha He Hk Hi Hj Hne Hy Hp Hq Hv Hc.
  assert (i = 0 ∨ i = 1 ∨ i = 2) as [-> | [-> | ->]] by lia;
    assert (j = 0 ∨ j = 1 ∨ j = 2) as [-> | [-> | ->]] by lia;
    try done;
    vm_compute in Hy, Hp, Hq;
    injection Hy as <-; injection Hp as <-; injection Hq as <-;
    (erewrite leq_spec;
       [| reflexivity | reflexivity | apply is_consistent_3x3 ]);
    (rewrite consistent3_true by (unfold sane in S; lia));
    apply canonize_idempotent; unfold sane in *; lia.
Qed.

(** [reset] to a value between 0 and infinity. *)
Lemma reset_fixed_3x3 cl v a b c d e f g h k col :
  sane b c d f g h → cl = 1 ∨ cl = 2 → 0 <= v <= infinity →
  ∃ D', reset cl v (mkDBM 3 [a;b;c;d;e;f;g;h;k] col) = Returns tt D'
        ∧ canonize D' = Returns tt D'.
Proof.
  intros S [-> | ->] Hv.
  - rewrite reset_1_3x3. apply canonize_idempotent.
    unfold sane, infinity in *. lia.
  - rewrite reset_2_3x3. apply canonize_idempotent.
    unfold sane, infinity in *. lia.
Qed.

(** The [free] command; freeing a lower bound stores 0, which must close
    no negative cycle. *)
Lemma free_command_fixed_3x3 i j y p q a b c d e f g h k col :
  sane b c d f g h →
  0 <= i < 3 → 0 <= j < 3 → i ≠ j →
  entry (mkDBM 3 [a;b;c;d;e;f;g;h;k] col) j i = Some y →
  entry (mkDBM 3 [a;b;c;d;e;f;g;h;k] col) j (3 - i - j) = Some p →
  entry (mkDBM 3 [a;b;c;d;e;f;g;h;k] col) (3 - i - j) i = Some q →
  (i = 0 → 0 <= y ∧ 0 <= p + q) →
  ∃ D', free_command i j (mkDBM 3 [a;b;c;d;e;f;g;h;k] col) = Returns tt D'
        ∧ canonize D' = Returns tt D'.
Proof.
  intros S Hi Hj Hne Hy Hp Hq H0.
  assert (i = 0 ∨ i = 1 ∨ i = 2) as [-> | [-> | ->]] by lia;
    assert (j = 0 ∨ j = 1 ∨ j = 2) as [-> | [-> | ->]] by lia;
    try done;
    vm_compute in Hy, Hp, Hq;
    injection Hy as <-; injection Hp as <-; injection Hq as <-;
    unfold free_command;
    (erewrite bind_Returns; [|reflexivity]);
    apply canonize_idempotent;
    try (destruct H0 as [? ?]; [done|]);
    unfold sane, infinity in *; lia.
Qed.

Lemma extrapolated_bounds x mi mj :
  x <= infinity → - infinity <= mj →
  x <= extrapolated x mi mj <= infinity.
Proof.
  intros Hx Hm. unfold extrapolated.
  destruct (Z.gtb_spec x mi); [lia|].
  destruct (Z.gtb_spec (- x) mj); lia.
Qed.

(** The two extrapolations only raise entries, which keeps the cycles
    non-negative. *)
Lemma lu_extrapolate_fixed_3x3 l0 l1 l2 u0 u1 u2 a b c d e f g h k col :
  sane b c d f g h →
  - infinity <= u0 → - infinity <= u1 → - infinity <= u2 →
  ∃ D', lu_extrapolate [l0; l1; l2] [u0; u1; u2]
          (mkDBM 3 [a;b;c;d;e;f;g;h;k] col) = Returns tt D'
        ∧ canonize D' = Returns tt D'.
Proof.
  intros S H0 H1 H2. rewrite lu_extrapolate_3x3. apply canonize_idempotent.
  destruct S as ((Sb & Sc & Sd & Sf & Sg & Sh) & S2 & S3).
  pose proof (extrapolated_bounds b l0 u1 Sb H1).
  pose proof (extrapolated_bounds c l0 u2 Sc H2).
  pose proof (extrapolated_bounds d l1 u0 Sd H0).
  pose proof (extrapolated_bounds f l1 u2 Sf H2).
  pose proof (extrapolated_bounds g l2 u0 Sg H0).
  pose proof (extrapolated_bounds h l2 u1 Sh H1).
  unfold sane. lia.
Qed.

(** [up] on a fixed point. *)
Lemma up_fixed_3x3 a b c d e f g h k col :
  d <= infinity → g <= infinity →
  canonize (mkDBM 3 [a;b;c;d;e;f;g;h;k] col) =
    Returns tt (mkDBM 3 [a;b;c;d;e;f;g;h;k] col) →
  ∃ D', up (mkDBM 3 [a;b;c;d;e;f;g;h;k] col) = Returns tt D'
        ∧ canonize D' = Returns tt D'.
Proof.
  intros Hd Hg Hcan. eexists. split; [reflexivity|].
  apply fixed_tight in Hcan. apply canonize_fixed.
  revert Hcan. unfold all_tight, tight. lia.
Qed.

(** * Any number of clocks *)

Lemma py_get_in_range (l : list Z) i :
  - Z.of_nat (length l) <= i < Z.of_nat (length l) →
  ∃ v, py_get l i = Some v ∧ v ∈ l.
Proof.
  intros Hi. unfold py_get, py_index.
  destruct (Z.leb_spec 0 i), (Z.ltb_spec i (Z.of_nat (length l))); cbn [andb];
    try lia.
  - destruct (lookup_lt_is_Some_2 l (Z.to_nat i)) as [v Hv]; [lia|].
    exists v. cbn. split; [done|]. by eapply list_elem_of_lookup_2.
  - destruct (Z.leb_spec (- Z.of_nat (length l)) i), (Z.ltb_spec i 0);
      cbn [andb]; try lia.
    destruct (lookup_lt_is_Some_2 l (Z.to_nat (Z.of_nat (length l) + i)))
      as [v Hv]; [lia|].
    exists v. cbn. split; [done|]. by eapply list_elem_of_lookup_2.
Qed.

Lemma for_unchanged {A} (l : list A) (body : A → method unit) s :
  (∀ x, x ∈ l → body x s = Returns tt s) → for_ l body s = Returns tt s.
Proof.
  induction l as [|x l IH]; intros Hb; [done|]. cbn [for_].
  rewrite (bind_Returns _ _ _ _ _ (Hb x ltac:(left))).
  apply IH. intros y Hy. apply Hb. by right.
Qed.

Lemma elem_of_range x lo hi : x ∈ range lo hi ↔ lo <= x < hi.
Proof. unfold range. rewrite elem_of_seqZ. lia. Qed.

(** The three reads of an iteration of [canonize] are always within the
    list, also where [c3] is negative and wraps around. *)
Lemma canonize_reads N (l : list Z) c1 c2 :
  Z.of_nat (length l) = N * N → 0 <= c1 < N → 0 <= c2 < N → c1 ≠ c2 →
  0 <= c1 * N + c2 < Z.of_nat (length l)
  ∧ - Z.of_nat (length l) <= c1 * N + (N - c1 - c2) < Z.of_nat (length l)
  ∧ - Z.of_nat (length l) <= (N - c1 - c2) * N + c2 < Z.of_nat (length l).
Proof. intros -> H1 H2 Hne. nia. Qed.

Lemma canonize_pair_unchanged N l col c1 c2 x p q :
  c1 ≠ c2 →
  py_get l (c1 * N + c2) = Some x →
  py_get l (c1 * N + (N - c1 - c2)) = Some p →
  py_get l ((N - c1 - c2) * N + c2) = Some q →
  x <= p + q →
  canonize_pair N c1 c2 (mkDBM N l col) = Returns tt (mkDBM N l col).
Proof.
  intros Hne Hx Hp Hq Hle. unfold canonize_pair.
  destruct (Z.eqb_spec c1 c2) as [?|_]; [done|]. cbv zeta.
  rewrite (bind_Returns _ _ _ _ _ (getitem_Some _ _ _ _ _ _ Hx)).
  rewrite (bind_Returns _ _ _ _ _ (getitem_Some _ _ _ _ _ _ Hp)).
  rewrite (bind_Returns _ _ _ _ _ (getitem_Some _ _ _ _ _ _ Hq)).
  by destruct (Z.gtb_spec x (p + q)); [lia|].
Qed.

(** [canonize] returns, and changes nothing, when no pair fails its test. *)
Lemma canonize_unchanged N l col :
  Z.of_nat (length l) = N * N →
  (∀ c1 c2 x p q,
     0 <= c1 < N → 0 <= c2 < N → c1 ≠ c2 →
     py_get l (c1 * N + c2) = Some x →
     py_get l (c1 * N + (N - c1 - c2)) = Some p →
     py_get l ((N - c1 - c2) * N + c2) = Some q →
     x <= p + q) →
  canonize (mkDBM N l col) = Returns tt (mkDBM N l col).
Proof.
  intros Hlen Hok. unfold canonize.
  rewrite (bind_Returns _ _ _ N (mkDBM N l col)) by done.
  apply for_unchanged. intros c1 H1%elem_of_range.
  apply for_unchanged. intros c2 H2%elem_of_range.
  destruct (Z.eq_dec c1 c2) as [->|Hne].
  { unfold canonize_pair. by rewrite Z.eqb_refl. }
  destruct (canonize_reads N l c1 c2 Hlen H1 H2 Hne) as (Rx & Rp & Rq).
  destruct (py_get_in_range l _ Rp) as (p & Hp & _).
  destruct (py_get_in_range l _ Rq) as (q & Hq & _).
  destruct (py_get_in_range l (c1 * N + c2)) as (x & Hx & _); [lia|].
  eapply canonize_pair_unchanged; [done..|]. by apply (Hok c1 c2 x p q).
Qed.

Lemma length_init n : Z.of_nat (length (replicate (Z.to_nat ((n + 1) ^ 2)) (0:Z)))
                      = (n + 1) * (n + 1).
Proof. rewrite length_replicate. nia. Qed.

(** [zero(n)] is a fixed point of [canonize], whatever [n]. *)
Lemma canonize_zero n col : canonize (zero n col) = Returns tt (zero n col).
Proof.
  unfold zero, init. apply canonize_unchanged; [apply length_init|].
  intros c1 c2 x p q _ _ _ Hx Hp Hq.
  assert (∀ i v, py_get (replicate (Z.to_nat ((n + 1) ^ 2)) 0) i = Some v → v = 0)
    as Hz.
  { intros i v. unfold py_get. destruct (py_index _ i) as [k|]; [|done]. cbn.
    intros Hv%list_elem_of_lookup_2. by apply elem_of_replicate_inv in Hv. }
  rewrite (Hz _ _ Hx), (Hz _ _ Hp), (Hz _ _ Hq). lia.
Qed.

(** ** The loops of [true] *)

Lemma for_range_inv (I : Z → DBM → Prop) lo hi (body : Z → method unit) s :
  lo <= hi → I lo s →
  (∀ k s, lo <= k < hi → I k s → ∃ s', body k s = Returns tt s' ∧ I (k + 1) s') →
  ∃ s', for_ (range lo hi) body s = Returns tt s' ∧ I hi s'.
Proof.
  unfold range. intros Hle HI Hstep.
  remember (Z.to_nat (hi - lo)) as m eqn:Hm.
  revert lo s Hle HI Hstep Hm. induction m as [|m IH]; intros lo s Hle HI Hstep Hm.
  - assert (hi = lo) as -> by lia. rewrite seqZ_nil by lia. by exists s.
  - rewrite seqZ_cons by lia. cbn [for_].
    destruct (Hstep lo s ltac:(lia) HI) as (s1 & Hb & HI1).
    rewrite (bind_Returns _ _ _ _ _ Hb).
    replace (Z.pred (hi - lo)) with (hi - Z.succ lo) by lia.
    apply IH; [lia| by replace (Z.succ lo) with (lo + 1) by lia | | lia].
    intros k s' Hk. apply Hstep. lia.
Qed.

Lemma setitem_nonneg i j v N l col :
  0 <= i * N + j < Z.of_nat (length l) →
  setitem i j v (mkDBM N l col) =
  Returns tt (mkDBM N (<[Z.to_nat (i * N + j) := v]> l) col).
Proof.
  intros Hi. apply setitem_Some. unfold py_set. by rewrite py_index_nonneg.
Qed.

(** Storing infinity right after the filled part extends it. *)
Lemma filled_step N col c1 c2 s :
  1 <= c1 < N → 0 <= c2 < N →
  filled N col (c1 * N + c2) s →
  ∃ s', setitem c1 c2 infinity s = Returns tt s'
        ∧ filled N col (c1 * N + (c2 + 1)) s'.
Proof.
  intros H1 H2 (l & -> & Hlen & Hl).
  assert (0 <= c1 * N + c2 < Z.of_nat (length l)) as Hidx by nia.
  eexists. split; [by apply setitem_nonneg|].
  eexists. split; [done|]. rewrite length_insert. split; [done|].
  intros idx Hlt. destruct (decide (idx = Z.to_nat (c1 * N + c2))) as [->|Hne].
  - rewrite list_lookup_insert_eq by lia.
    destruct (decide (N <= _ < _)) as [|Hn]; [done|]. exfalso. apply Hn. nia.
  - rewrite list_lookup_insert_ne by done. rewrite Hl by done.
    repeat case_decide; try done; lia.
Qed.

(** Storing 0 in row 0 changes nothing in a filled matrix. *)
Lemma filled_row0 N col b c2 s :
  0 <= c2 < N → filled N col b s →
  ∃ s', setitem 0 c2 0 s = Returns tt s' ∧ filled N col b s'.
Proof.
  intros H2 (l & -> & Hlen & Hl).
  assert (0 <= 0 * N + c2 < Z.of_nat (length l)) as Hidx by nia.
  eexists. split; [by apply setitem_nonneg|].
  eexists. split; [done|]. rewrite length_insert. split; [done|].
  intros idx Hlt. destruct (decide (idx = Z.to_nat (0 * N + c2))) as [->|Hne].
  - rewrite list_lookup_insert_eq by lia.
    destruct (decide (N <= _ < _)) as [Hn|]; [|done]. lia.
  - rewrite list_lookup_insert_ne by done. by apply Hl.
Qed.

(** [true(n)] returns, with 0 in row 0 and infinity in every other row. *)
Lemma true_filled n col :
  0 <= n → ∃ D, true_ n col = Returns tt D ∧ filled (n + 1) col ((n + 1) * (n + 1)) D.
Proof.
  intros Hn. unfold true_. set (N := n + 1).
  assert (filled N col (1 * N) (init n col)) as H0.
  { exists (replicate (Z.to_nat ((n + 1) ^ 2)) 0). split; [done|].
    split; [apply length_init|]. intros idx Hidx.
    rewrite length_replicate in Hidx. rewrite lookup_replicate_2 by done.
    destruct (decide (N <= _ < _)); [lia|done]. }
  destruct (for_range_inv (λ c1, filled N col (c1 * N)) 1 (n + 1)
              (λ c1, for_ (range 0 (n + 1)) (λ c2, setitem c1 c2 infinity))
              (init n col)) as (s1 & Hs1 & F1); [lia|done| |].
  { intros c1 s Hc1 Hs.
    destruct (for_range_inv (λ c2, filled N col (c1 * N + c2)) 0 (n + 1)
                (λ c2, setitem c1 c2 infinity) s) as (s' & Hs' & F');
      [lia| by rewrite Z.add_0_r | |].
    { intros c2 s' Hc2 Hf. apply filled_step; [lia..|done]. }
    exists s'. split; [done|].
    by replace ((c1 + 1) * N) with (c1 * N + (n + 1)) by lia. }
  rewrite (bind_Returns _ _ _ _ _ Hs1).
  destruct (for_range_inv (λ _, filled N col (N * N)) 0 (n + 1)
              (λ c2, setitem 0 c2 0) s1) as (s2 & Hs2 & F2); [lia|done| |].
  { intros c2 s Hc2 Hf. apply filled_row0; [lia|done]. }
  by exists s2.
Qed.

(** The entries of a filled matrix. *)
Lemma filled_entry N col D i j :
  filled N col (N * N) D → 0 <= i < N → 0 <= j < N →
  entry D i j = Some (if i =? 0 then 0 else infinity).
Proof.
  intros (l & -> & Hlen & Hl) Hi Hj. unfold entry. cbn [dbm clocks].
  rewrite py_get_nonneg by nia. rewrite Hl by nia.
  destruct (Z.eqb_spec i 0) as [->|Hne]; case_decide; try done; nia.
Qed.

(** [canonize] leaves a filled matrix as it is: in row 0 the entry is 0 and
    no entry is negative; in the other rows [D[c1,c3]] is infinity, which
    no entry exceeds. *)
Lemma canonize_filled N col D :
  filled N col (N * N) D → canonize D = Returns tt D.
Proof.
  intros (l & -> & Hlen & Hl).
  assert (∀ v, v ∈ l → v = 0 ∨ v = infinity) as Hel.
  { intros v (idx & Hv)%list_elem_of_lookup_1.
    pose proof (lookup_lt_Some _ _ _ Hv) as Hlt.
    rewrite (Hl idx Hlt) in Hv. injection Hv as <-. case_decide; auto. }
  assert (∀ i, 0 <= i < Z.of_nat (length l) →
            py_get l i = Some (if decide (N <= i) then infinity else 0)) as Hget.
  { intros i Hi. rewrite py_get_nonneg by done. rewrite Hl by lia.
    repeat case_decide; try done; lia. }
  apply canonize_unchanged; [done|].
  intros c1 c2 x p q H1 H2 Hne Hx Hp Hq.
  destruct (canonize_reads N l c1 c2 Hlen H1 H2 Hne) as (Rx & Rp & Rq).
  destruct (py_get_in_range l _ Rp) as (p' & Hp' & Hpl).
  destruct (py_get_in_range l _ Rq) as (q' & Hq' & Hql).
  rewrite Hp in Hp'. rewrite Hq in Hq'. injection Hp' as <-. injection Hq' as <-.
  rewrite (Hget _ Rx) in Hx. injection Hx as <-.
  destruct (decide (N <= c1 * N + c2)) as [Hrow|?];
    [|destruct (Hel _ Hpl) as [-> | ->], (Hel _ Hql) as [-> | ->];
      unfold infinity; lia].
  assert (1 <= c1) as Hc1 by nia.
  assert (0 <= (c1 - 1) * (N - 1)) as Hmul by nia.
  assert (N <= c1 * N + (N - c1 - c2) < Z.of_nat (length l)) as Rp' by nia.
  rewrite (Hget (c1 * N + (N - c1 - c2)) ltac:(lia)) in Hp.
  rewrite decide_True in Hp by lia.
  injection Hp as <-.
  destruct (Hel _ Hql) as [-> | ->]; unfold infinity; lia.
Qed.

(** ** [canonize] on [false(n)] *)

Lemma sinking_step N col c1 c2 (moved : Prop) s :
  2 <= N → 0 <= c1 < N → 0 <= c2 < N →
  sinking N col moved s →
  ∃ s', canonize_pair N c1 c2 s = Returns tt s'
        ∧ sinking N col (moved ∨ (c1 = 0 ∧ c2 = 1)) s'.
Proof.
  intros HN H1 H2 (l & -> & Hlen & Hneg & Hmoved).
  destruct (Z.eq_dec c1 c2) as [->|Hne].
  { exists (mkDBM N l col). unfold canonize_pair. rewrite Z.eqb_refl.
    split; [done|]. exists l. repeat split; try done.
    intros [?|[? ?]]; [auto|lia]. }
  destruct (canonize_reads N l c1 c2 Hlen H1 H2 Hne) as (Rx & Rp & Rq).
  destruct (py_get_in_range l _ Rp) as (p & Hp & Hpl%Hneg).
  destruct (py_get_in_range l _ Rq) as (q & Hq & Hql%Hneg).
  destruct (py_get_in_range l (c1 * N + c2)) as (x & Hx & Hxl%Hneg); [lia|].
  eexists. split.
  { eapply canonize_pair_spec; [done..|].
    unfold py_set. by rewrite py_index_nonneg. }
  assert (shorten x p q <= -1 ∧ shorten x p q <= p + q) as [Hs1 Hs2].
  { destruct (shorten_cases x p q) as [[-> ?] | [[-> ?] | [-> ?]]];
      unfold infinity in *; lia. }
  eexists. split; [done|]. rewrite length_insert. split; [done|]. split.
  - intros v (k & Hv)%list_elem_of_lookup_1.
    destruct (decide (k = Z.to_nat (c1 * N + c2))) as [->|Hk].
    + rewrite list_lookup_insert_eq in Hv by lia. by injection Hv as <-.
    + rewrite list_lookup_insert_ne in Hv by done. apply Hneg.
      by eapply list_elem_of_lookup_2.
  - intros Hm. destruct (decide (Z.to_nat (c1 * N + c2) = 1%nat)) as [He|Hn].
    + rewrite He. rewrite list_lookup_insert_eq by lia. eexists. split; [done|lia].
    + rewrite list_lookup_insert_ne by done. apply Hmoved.
      destruct Hm as [?|[-> ->]]; [done|]. lia.
Qed.

(** [canonize] returns on [false(n)], and lowers [D[0,1]] below -1. *)
Lemma canonize_false n col :
  1 <= n →
  ∃ D v, canonize (false_ n col) = Returns tt D
         ∧ entry D 0 1 = Some v ∧ v <= -2.
Proof.
  intros Hn. unfold canonize, false_, init. cbn [clocks color].
  set (N := n + 1). set (l0 := false_matrix n).
  rewrite (bind_Returns _ _ _ N (mkDBM N l0 col)) by done.
  assert (sinking N col False (mkDBM N l0 col)) as H0.
  { exists l0. split; [done|]. split.
    { unfold l0, false_matrix. rewrite length_replicate. nia. }
    split; [|done]. intros v Hv. by apply elem_of_replicate_inv in Hv as ->. }
  destruct (for_range_inv (λ c1, sinking N col (1 <= c1)) 0 N
              (λ c1, for_ (range 0 N) (λ c2, canonize_pair N c1 c2))
              (mkDBM N l0 col)) as (D & HD & HF); [lia| | |].
  { destruct H0 as (l & ? & ? & ? & _). exists l. repeat split; try done; lia. }
  { intros c1 s Hc1 Hs.
    destruct (for_range_inv (λ c2, sinking N col (1 <= c1 ∨ (c1 = 0 ∧ 2 <= c2))) 0 N
                (λ c2, canonize_pair N c1 c2) s) as (s' & Hs' & HF');
      [lia| | |].
    - destruct Hs as (l & ? & ? & ? & Hm). exists l. repeat split; try done.
      intros [?|[? ?]]; [auto|lia].
    - intros c2 s' Hc2 Hf.
      destruct (sinking_step N col c1 c2 _ s' ltac:(lia) Hc1 Hc2 Hf)
        as (s'' & Hstep & (l & ? & ? & ? & Hm)).
      exists s''. split; [done|]. exists l. repeat split; try done.
      intros Hmoved. apply Hm. destruct Hmoved as [?|[? ?]]; [auto|].
      destruct (decide (c2 = 1)); [right; lia|left; right; lia].
    - exists s'. split; [done|].
      destruct HF' as (l & ? & ? & ? & Hm). exists l. repeat split; try done.
      intros Hc. apply Hm. lia. }
  destruct HF as (l & -> & Hlen & Hneg & Hm).
  destruct Hm as (v & Hv & Hle); [lia|].
  exists (mkDBM N l col), v. split; [done|]. split; [|done].
  unfold entry. cbn [dbm clocks]. rewrite py_get_nonneg by nia.
  by replace (Z.to_nat (0 * N + 1)) with 1%nat by lia.
Qed.

(** * The claims *)

(** ** C1: [leq] on an inconsistent result *)

(** C1 (code defect).  The claim says that [leq], after it has stored
    [min(D[i,j], b)], collapses an inconsistent DBM to the False instance
    without raising.  On [zero(2)] the command [y>3], that is
    [leq(0, 2, -3)], stores -3 in [D[0,2]], finds [3 > D[2,0] = 0], and
    the call [DBM.false()] raises TypeError for its missing argument: the
    DBM keeps the stored bound and is not collapsed. *)
Theorem leq_inconsistent_raises col :
  leq 0 2 (-3) (zero 2 col) =
  Raises TypeError (mkDBM 3 [0;0;-3; 0;0;0; 0;0;0] col).
Proof. vm_compute. reflexivity. Qed.

(** ** C2: the diagonal *)

(** C2, counterexample: [true(2)] is returned by a public operation, is not
    the False instance, and has [D[1,1] = infinity]. *)
Lemma true_diagonal_counterexample :
  true_ 2 "red" = Returns tt (true2 "red")
  ∧ eq_ (true2 "red") (false_ 2 "red") = false
  ∧ entry (true2 "red") 1 1 = Some infinity
  ∧ Some infinity ≠ Some 0.
Proof. repeat split; try (vm_compute; reflexivity). done. Qed.

(** C2, as amended.  [zero(n)] has a zero diagonal; [true(n)] returns a
    matrix with 0 in row 0 and infinity in every other row, so
    [D[0,0] = 0] and [D[i,i] = infinity] for every real clock [i];
    [copy] keeps dimension and matrix; and every mutator (canonize, leq,
    reset, free, the free command, up, down, the two extrapolations, at
    distinct clock indices) that returns on a DBM on two clocks returns a
    DBM on two clocks with the same colour and the same three diagonal
    entries: a zero diagonal stays zero, the diagonal of [true(2)] stays
    as it is. *)
Theorem diagonal_kept :
  (∀ n col i, 0 <= n → 0 <= i <= n → entry (zero n col) i i = Some 0)
  ∧ (∀ n col, 0 <= n →
       ∃ D, true_ n col = Returns tt D
            ∧ (∀ i j, 0 <= i <= n → 0 <= j <= n →
                 entry D i j = Some (if i =? 0 then 0 else infinity))
            ∧ entry D 0 0 = Some 0
            ∧ (∀ i, 1 <= i <= n → entry D i i = Some infinity))
  ∧ (∀ s col, clocks (copy s col) = clocks s ∧ dbm (copy s col) = dbm s)
  ∧ (∀ op a b c d e f g h k col D',
       mutator op →
       op (mkDBM 3 [a;b;c;d;e;f;g;h;k] col) = Returns tt D' →
       ∃ b1 c1 d1 f1 g1 h1, D' = mkDBM 3 [a;b1;c1;d1;e;f1;g1;h1;k] col).
Proof.
  split; [|split; [|split]].
  - intros n col i Hn Hi. unfold entry, zero, init. cbn [dbm clocks].
    rewrite py_get_nonneg by (rewrite length_replicate; nia).
    apply lookup_replicate_2. nia.
  - intros n col Hn. destruct (true_filled n col Hn) as (D & HD & HF).
    exists D. split; [done|].
    assert (∀ i j, 0 <= i <= n → 0 <= j <= n →
              entry D i j = Some (if i =? 0 then 0 else infinity)) as He.
    { intros i j Hi Hj. apply (filled_entry _ _ _ _ _ HF); lia. }
    split; [done|]. split; [apply (He 0 0); lia|].
    intros i Hi. rewrite He by lia. by destruct (Z.eqb_spec i 0); [lia|].
  - intros s col. unfold copy. cbn. split; [lia|done].
  - intros op a b c d e f g h k col D' Hop. by apply mutator_diagonal.
Qed.

Lemma diagonal_kept_witness :
  entry (zero 2 "red") 1 1 = Some 0
  ∧ (∃ D, true_ 2 "red" = Returns tt D
          ∧ (∀ i j, 0 <= i <= 2 → 0 <= j <= 2 →
               entry D i j = Some (if i =? 0 then 0 else infinity))
          ∧ entry D 0 0 = Some 0
          ∧ (∀ i, 1 <= i <= 2 → entry D i i = Some infinity))
  ∧ (∃ b1 c1 d1 f1 g1 h1,
       mkDBM 3 [0;0;0; 5;0;0; 5;0;0] "red"
       = mkDBM 3 [0;b1;c1; d1;0;f1; g1;h1;0] "red").
Proof.
  destruct diagonal_kept as (Hzero & Htrue & _ & Hmut).
  split; [apply Hzero; lia|]. split; [apply Htrue; lia|].
  apply (Hmut (leq 1 0 5) 0 0 0 infinity 0 0 infinity 0 0 "red"%string).
  - apply mu_canonizing. apply cz_leq; lia.
  - vm_compute. reflexivity.
Defined.

(** ** C3: the scenario *)

(** C3, counterexample: the scenario ends in the matrix with [D[0,1] = -3],
    [D[1,0] = 8] and [D[2,1] = -3]; the canonical form of
    [{x<=5, y<=3, x-y<=5, y-x<=0}] has 0, 5 and 0 there, whether it is
    written down directly or built with [leq] from [true(2)], and [__eq__]
    tells them apart. *)
Lemma scenario_counterexample :
  scenario (zero 2 "red") =
    Returns tt (mkDBM 3 [0;-3;0; 8;0;5; 3;-3;0] "red")
  ∧ canonize (constraint_dbm 0 5 0 3 5 0 "red") =
    Returns tt (mkDBM 3 [0;0;0; 5;0;5; 3;0;0] "red")
  ∧ eq_ (mkDBM 3 [0;-3;0; 8;0;5; 3;-3;0] "red")
        (mkDBM 3 [0;0;0; 5;0;5; 3;0;0] "red") = false
  ∧ true_ 2 "red" = Returns tt (true2 "red")
  ∧ (leq 1 0 5;; leq 2 0 3;; leq 1 2 5;; leq 2 1 0) (true2 "red") =
    Returns tt (mkDBM 3 [0;0;0; 5;infinity;5; 3;0;infinity] "red")
  ∧ eq_ (mkDBM 3 [0;-3;0; 8;0;5; 3;-3;0] "red")
        (mkDBM 3 [0;0;0; 5;infinity;5; 3;0;infinity] "red") = false.
Proof. repeat split; vm_compute; reflexivity. Qed.

(** C3, as amended.  The scenario produces the canonical form of
    [{3<=x<=8, y<=3, x-y<=5, y-x<=-3}], the matrix
    [[0,-3,0],[8,0,5],[3,-3,0]], which [canonize] leaves as it is;
    a call of [canonize] after each [delay()] makes no difference. *)
Theorem scenario_result col :
  scenario (zero 2 col) = canonize (constraint_dbm 3 8 0 3 5 (-3) col)
  ∧ scenario (zero 2 col) = Returns tt (mkDBM 3 [0;-3;0; 8;0;5; 3;-3;0] col)
  ∧ scenario_canonized (zero 2 col) = scenario (zero 2 col)
  ∧ canonize (mkDBM 3 [0;-3;0; 8;0;5; 3;-3;0] col) =
    Returns tt (mkDBM 3 [0;-3;0; 8;0;5; 3;-3;0] col).
Proof. repeat split; vm_compute; reflexivity. Qed.

(** ** C4: canonical on return *)

(** C4, counterexample: [canonize] changes every off-diagonal entry of
    [false(2)]; and after [x-y<=-3] on [true(2)], [free(0, 2)], which
    leaves the call of [canonize] to its caller, returns a matrix in which
    [canonize] still lowers [D[0,2]] from 0 to -3. *)
Lemma canonical_counterexample :
  canonize (false_ 2 "red") =
    Returns tt (mkDBM 3 [-1;-2;-3; -2;-1;-5; -3;-5;-1] "red")
  ∧ eq_ (mkDBM 3 [-1;-2;-3; -2;-1;-5; -3;-5;-1] "red") (false_ 2 "red") = false
  ∧ true_ 2 "red" = Returns tt (true2 "red")
  ∧ (leq 1 2 (-3);; free 0 2) (true2 "red") =
    Returns tt (mkDBM 3 [0;0;0; infinity;infinity;-3;
                         infinity;infinity;infinity] "red")
  ∧ canonize (mkDBM 3 [0;0;0; infinity;infinity;-3;
                       infinity;infinity;infinity] "red") =
    Returns tt (mkDBM 3 [0;0;-3; infinity;infinity;-3;
                         infinity;infinity;infinity] "red")
  ∧ eq_ (mkDBM 3 [0;0;-3; infinity;infinity;-3;
                  infinity;infinity;infinity] "red")
        (mkDBM 3 [0;0;0; infinity;infinity;-3;
                  infinity;infinity;infinity] "red") = false.
Proof. repeat split; vm_compute; reflexivity. Qed.

(** C4, as amended.  [canonize] leaves [zero(n)] and [true(n)] as they
    are, and the copy of a DBM it leaves as it is; on two clocks, one pass
    of [canonize] over a matrix with no entry above infinity and no
    negative cycle returns a matrix that a second pass leaves as it is.
    On such a matrix the mutators return, and return a DBM that
    [canonize] leaves as it is:
    - [leq(i, j, v)], when the diagonal is not negative and the bound [v]
      closes no negative cycle ([-v <= D[j,i]] and
      [0 <= v + D[j,k] + D[k,i]] for the third index [k]);
    - [reset(c, v)] for a real clock [c] and [0 <= v <= infinity];
    - the free command [free i-j], when for [i = 0] the bound 0 it stores
      closes no negative cycle ([0 <= D[j,0]] and [0 <= D[j,k] + D[k,0]]);
    - [extrapolate] and [LUextrapolate], with maxima not below minus
      infinity;
    - [up], when the matrix is one that [canonize] leaves as it is.
    Not so for [false(n)] with [n >= 1], in which [canonize] lowers
    [D[0,1]] below -1, nor for [free] called on its own, which leaves the
    call of [canonize] to its caller. *)
Theorem canonical_on_return :
  (∀ n col, canonize (zero n col) = Returns tt (zero n col))
  ∧ (∀ n col, 0 <= n →
       ∃ D, true_ n col = Returns tt D ∧ canonize D = Returns tt D)
  ∧ (∀ s col, canonize s = Returns tt s →
       canonize (copy s col) = Returns tt (copy s col))
  ∧ (∀ a b c d e f g h k col,
       sane b c d f g h →
       ∃ D', canonize (mkDBM 3 [a;b;c;d;e;f;g;h;k] col) = Returns tt D'
             ∧ canonize D' = Returns tt D')
  ∧ (∀ i j v y p q a b c d e f g h k col,
       sane b c d f g h → 0 <= a → 0 <= e → 0 <= k →
       0 <= i < 3 → 0 <= j < 3 → i ≠ j →
       entry (mkDBM 3 [a;b;c;d;e;f;g;h;k] col) j i = Some y →
       entry (mkDBM 3 [a;b;c;d;e;f;g;h;k] col) j (3 - i - j) = Some p →
       entry (mkDBM 3 [a;b;c;d;e;f;g;h;k] col) (3 - i - j) i = Some q →
       - v <= y → 0 <= v + p + q →
       ∃ D', leq i j v (mkDBM 3 [a;b;c;d;e;f;g;h;k] col) = Returns tt D'
             ∧ canonize D' = Returns tt D')
  ∧ (∀ cl v a b c d e f g h k col,
       sane b c d f g h → cl = 1 ∨ cl = 2 → 0 <= v <= infinity →
       ∃ D', reset cl v (mkDBM 3 [a;b;c;d;e;f;g;h;k] col) = Returns tt D'
             ∧ canonize D' = Returns tt D')
  ∧ (∀ i j y p q a b c d e f g h k col,
       sane b c d f g h →
       0 <= i < 3 → 0 <= j < 3 → i ≠ j →
       entry (mkDBM 3 [a;b;c;d;e;f;g;h;k] col) j i = Some y →
       entry (mkDBM 3 [a;b;c;d;e;f;g;h;k] col) j (3 - i - j) = Some p →
       entry (mkDBM 3 [a;b;c;d;e;f;g;h;k] col) (3 - i - j) i = Some q →
       (i = 0 → 0 <= y ∧ 0 <= p + q) →
       ∃ D', free_command i j (mkDBM 3 [a;b;c;d;e;f;g;h;k] col) = Returns tt D'
             ∧ canonize D' = Returns tt D')
  ∧ (∀ m0 m1 m2 a b c d e f g h k col,
       sane b c d f g h →
       - infinity <= m0 → - infinity <= m1 → - infinity <= m2 →
       ∃ D', extrapolate [m0; m1; m2]
               (mkDBM 3 [a;b;c;d;e;f;g;h;k] col) = Returns tt D'
             ∧ canonize D' = Returns tt D')
  ∧ (∀ l0 l1 l2 u0 u1 u2 a b c d e f g h k col,
       sane b c d f g h →
       - infinity <= u0 → - infinity <= u1 → - infinity <= u2 →
       ∃ D', lu_extrapolate [l0; l1; l2] [u0; u1; u2]
               (mkDBM 3 [a;b;c;d;e;f;g;h;k] col) = Returns tt D'
             ∧ canonize D' = Returns tt D')
  ∧ (∀ a b c d e f g h k col,
       sane b c d f g h →
       canonize (mkDBM 3 [a;b;c;d;e;f;g;h;k] col) =
         Returns tt (mkDBM 3 [a;b;c;d;e;f;g;h;k] col) →
       ∃ D', up (mkDBM 3 [a;b;c;d;e;f;g;h;k] col) = Returns tt D'
             ∧ canonize D' = Returns tt D')
  ∧ (∀ n col, 1 <= n →
       ∃ D v, canonize (false_ n col) = Returns tt D
              ∧ entry D 0 1 = Some v ∧ v <= -2).
Proof.
  split; [apply canonize_zero|].
  split.
  { intros n col Hn. destruct (true_filled n col Hn) as (D & HD & HF).
    exists D. split; [done|]. by eapply canonize_filled. }
  split.
  { intros [n l c] col Hs. unfold copy, init. cbn [clocks dbm color].
    replace (n - 1 + 1) with n by lia. done. }
  split; [intros; by apply canonize_idempotent|].
  split; [intros; by eapply leq_fixed_3x3|].
  split; [intros; by apply reset_fixed_3x3|].
  split; [intros; by eapply free_command_fixed_3x3|].
  split.
  { intros m0 m1 m2 a b c d e f g h k col S H0 H1 H2.
    by apply (lu_extrapolate_fixed_3x3 m0 m1 m2 m0 m1 m2). }
  split; [intros; by apply lu_extrapolate_fixed_3x3|].
  split; [|apply canonize_false].
  intros a b c d e f g h k col S Hcan.
  apply up_fixed_3x3; [unfold sane in S; lia..|done].
Qed.

Lemma canonical_on_return_witness :
  (∃ D, true_ 2 "red" = Returns tt D ∧ canonize D = Returns tt D)
  ∧ canonize (copy (zero 2 "red") "green") = Returns tt (copy (zero 2 "red") "green")
  ∧ (∃ D', canonize (mkDBM 3 [0;0;0; infinity;0;3; 7;infinity;0] "red") = Returns tt D'
           ∧ canonize D' = Returns tt D')
  ∧ (∃ D', leq 0 2 (-3) (mkDBM 3 [0;0;0; infinity;0;0; infinity;0;0] "red")
           = Returns tt D' ∧ canonize D' = Returns tt D')
  ∧ (∃ D', reset 1 0 (mkDBM 3 [0;-3;-3; 5;0;0; 5;0;0] "red") = Returns tt D'
           ∧ canonize D' = Returns tt D')
  ∧ (∃ D', free_command 0 2 (mkDBM 3 [0;-3;-3; 5;0;0; 5;0;0] "red")
           = Returns tt D' ∧ canonize D' = Returns tt D')
  ∧ (∃ D', extrapolate [infinity; 5; 5]
             (mkDBM 3 [0;0;0; 10;0;5; 5;5;0] "red") = Returns tt D'
           ∧ canonize D' = Returns tt D')
  ∧ (∃ D', lu_extrapolate [infinity; 4; 9] [infinity; 2; 0]
             (mkDBM 3 [0;0;0; 10;0;5; 5;5;0] "red") = Returns tt D'
           ∧ canonize D' = Returns tt D')
  ∧ (∃ D', up (mkDBM 3 [0;-3;0; 8;0;5; 3;-3;0] "red") = Returns tt D'
           ∧ canonize D' = Returns tt D')
  ∧ (∃ D v, canonize (false_ 2 "red") = Returns tt D
            ∧ entry D 0 1 = Some v ∧ v <= -2).
Proof.
  destruct canonical_on_return
    as (Hzero & Htrue & Hcopy & Hsane & Hleq & Hreset & Hfree & Hext & Hlu
        & Hup & Hfalse).
  split; [apply Htrue; lia|].
  split; [apply Hcopy, Hzero|].
  split; [apply Hsane; unfold sane, infinity; lia|].
  split.
  { apply (Hleq 0 2 (-3) infinity 0 infinity); first
      [ reflexivity | unfold sane, infinity; lia | lia | done ]. }
  split; [apply Hreset; [unfold sane, infinity; lia | by left | unfold infinity; lia]|].
  split.
  { apply (Hfree 0 2 5 0 5); first
      [ reflexivity | unfold sane, infinity; lia | lia | done ]. }
  split; [apply Hext; unfold sane, infinity; lia|].
  split; [apply Hlu; unfold sane, infinity; lia|].
  split; [|apply Hfalse; lia].
  apply Hup; [unfold sane, infinity; lia | vm_compute; reflexivity].
Defined.

(** ** C5: closure after [canonize] *)

(** C5, counterexample.  The matrix [[0,0,0],[0,0,-3],[2,inf,0]] has a
    zero diagonal and passes [is_consistent], which compares pairs only;
    its cycle 0 -> 1 -> 2 -> 0 is negative.  After [canonize],
    [D[0,1] = 0] exceeds [D[0,2] + D[2,1] = -3 + 2].  The interpreter
    reaches it: [new zero], [up], [y>=3], [reset x], [down], [y<=2].
    The second matrix has no negative cycle but the entry 100001 above
    infinity, which stays above [D[1,2] + D[2,0] = 1 + infinity]. *)
Lemma closure_counterexample :
  is_consistent (mkDBM 3 [0;0;0; 0;0;-3; 2;infinity;0] "red") =
    Returns true (mkDBM 3 [0;0;0; 0;0;-3; 2;infinity;0] "red")
  ∧ canonize (mkDBM 3 [0;0;0; 0;0;-3; 2;infinity;0] "red") =
    Returns tt (mkDBM 3 [0;0;-3; -1;0;-4; 2;2;0] "red")
  ∧ ¬ closed (mkDBM 3 [0;0;-3; -1;0;-4; 2;2;0] "red")
  ∧ (up;; leq 0 2 (-3);; reset 1 0;; down;; leq 2 0 2) (zero 2 "red") =
    Returns tt (mkDBM 3 [0;0;-3; -1;0;-4; 2;2;0] "red")
  ∧ is_consistent (mkDBM 3 [0;-100001;-100000; 100001;0;1; 100000;-1;0] "red") =
    Returns true (mkDBM 3 [0;-100001;-100000; 100001;0;1; 100000;-1;0] "red")
  ∧ canonize (mkDBM 3 [0;-100001;-100000; 100001;0;1; 100000;-1;0] "red") =
    Returns tt (mkDBM 3 [0;-100001;-100000; 100001;0;1; 100000;-1;0] "red")
  ∧ ¬ closed (mkDBM 3 [0;-100001;-100000; 100001;0;1; 100000;-1;0] "red").
Proof.
  split; [vm_compute; reflexivity|]. split; [vm_compute; reflexivity|].
  split.
  { intros H. specialize (H 0 1 2 0 (-3) 2). cbn in H.
    specialize (H ltac:(lia) ltac:(lia) ltac:(lia) eq_refl eq_refl eq_refl).
    vm_compute in H. by apply H. }
  split; [vm_compute; reflexivity|]. split; [vm_compute; reflexivity|].
  split; [vm_compute; reflexivity|].
  intros H. specialize (H 1 0 2 100001 1 100000). cbn in H.
  specialize (H ltac:(lia) ltac:(lia) ltac:(lia) eq_refl eq_refl eq_refl).
  vm_compute in H. by apply H.
Qed.

(** C5, as amended.  For every DBM on two clocks with a zero diagonal, no
    off-diagonal entry above infinity and no negative cycle (every sum
    [D[i,j] + D[j,i]] and [D[i,j] + D[j,k] + D[k,i]] is at least 0),
    [canonize] returns, and the matrix it returns satisfies
    [D[i,j] <= D[i,k] + D[k,j]] for every triple, with infinity-aware
    addition. *)
Theorem canonize_closed b c d f g h col :
  sane b c d f g h →
  ∃ D', canonize (mkDBM 3 [0;b;c; d;0;f; g;h;0] col) = Returns tt D'
        ∧ closed D'.
Proof.
  intros S. rewrite canonize_pass.
  pose proof (pass_tight _ _ _ _ _ _ S) as HT.
  destruct (pass b c d f g h) as [[[[[b' c'] d'] f'] g'] h'].
  destruct HT as [S' T]. eexists. split; [done|]. by apply closed_3x3.
Qed.

Lemma canonize_closed_witness :
  ∃ D', canonize (mkDBM 3 [0;0;0; infinity;0;3; 7;infinity;0] "red") = Returns tt D'
        ∧ closed D'.
Proof. apply canonize_closed. unfold sane, infinity. lia. Defined.

(** ** C6: [reset] *)

(** C6, counterexample.  With [D[0,2] = -100001], below minus infinity
    (and [D[2,0] = 100001], so that [is_consistent] holds), [reset(1, 0)]
    stores 0 in [D[0,1]], and [canonize] then finds
    [0 > D[0,2] + D[2,1] = -100001 + 100000] and stores infinity.  The
    interpreter reaches such entries: after [new false] and twelve times
    [free 0-0], [reset x] returns with [D[1,0] = D[0,1] = infinity]. *)
Lemma reset_counterexample :
  is_consistent (mkDBM 3 [0;0;-100001; 0;0;0; 100001;0;0] "red") =
    Returns true (mkDBM 3 [0;0;-100001; 0;0;0; 100001;0;0] "red")
  ∧ reset 1 0 (mkDBM 3 [0;0;-100001; 0;0;0; 100001;0;0] "red") =
    Returns tt (mkDBM 3 [0;infinity;-100001; 0;0;-100001;
                         infinity;infinity;0] "red")
  ∧ entry (mkDBM 3 [0;infinity;-100001; 0;0;-100001;
                    infinity;infinity;0] "red") 0 1 = Some infinity
  ∧ Some infinity ≠ Some 0
  ∧ (for_ (replicate 12 tt) (λ _, free_command 0 0);; reset 1 0) (false_ 2 "red") =
    Returns tt (mkDBM 3 [0;infinity;-24157817; infinity;-1;infinity;
                         -24157817;infinity;-1] "red").
Proof. repeat split; try (vm_compute; reflexivity). done. Qed.

(** C6, as amended.  On every DBM on two clocks, the assignments of
    [reset(c, 0)] return with [D[c,c2]] and [D[c2,c]] at infinity for the
    other real clock [c2], and [reset] returns what [canonize] makes of
    that matrix; if moreover [D[0,c2]] and [D[c2,0]] are at least minus
    infinity, [D[c,0]] and [D[0,c]] are exactly 0 in the DBM that [reset]
    returns. *)
Theorem reset_zero a b c d e f g h k col :
  (∃ D1, reset_assignments 1 0 (mkDBM 3 [a;b;c;d;e;f;g;h;k] col) = Returns tt D1
     ∧ entry D1 1 2 = Some infinity ∧ entry D1 2 1 = Some infinity
     ∧ reset 1 0 (mkDBM 3 [a;b;c;d;e;f;g;h;k] col) = canonize D1
     ∧ (- infinity <= c → - infinity <= g →
        ∃ D', reset 1 0 (mkDBM 3 [a;b;c;d;e;f;g;h;k] col) = Returns tt D'
              ∧ entry D' 1 0 = Some 0 ∧ entry D' 0 1 = Some 0))
  ∧ (∃ D1, reset_assignments 2 0 (mkDBM 3 [a;b;c;d;e;f;g;h;k] col) = Returns tt D1
     ∧ entry D1 2 1 = Some infinity ∧ entry D1 1 2 = Some infinity
     ∧ reset 2 0 (mkDBM 3 [a;b;c;d;e;f;g;h;k] col) = canonize D1
     ∧ (- infinity <= b → - infinity <= d →
        ∃ D', reset 2 0 (mkDBM 3 [a;b;c;d;e;f;g;h;k] col) = Returns tt D'
              ∧ entry D' 2 0 = Some 0 ∧ entry D' 0 2 = Some 0)).
Proof.
  assert (∀ y, - infinity <= y → shorten 0 y infinity = 0) as Hl.
  { intros y Hy. apply tight_fix. left. lia. }
  assert (∀ y, - infinity <= y → shorten 0 infinity y = 0) as Hr.
  { intros y Hy. apply tight_fix. left. lia. }
  split.
  - exists (mkDBM 3 [a;0;c; 0;e;infinity; g;infinity;k] col).
    split; [reflexivity|]. split; [done|]. split; [done|].
    split; [apply reset_1_3x3|].
    intros Hc Hg. rewrite reset_1_3x3, canonize_pass. unfold pass.
    rewrite (Hl c Hc), (Hr g Hg). eexists. split; [done|]. done.
  - exists (mkDBM 3 [a;b;0; d;e;infinity; 0;infinity;k] col).
    split; [reflexivity|]. split; [done|]. split; [done|].
    split; [apply reset_2_3x3|].
    intros Hb Hd. rewrite reset_2_3x3, canonize_pass.
    assert (- infinity <= shorten b 0 infinity) as Hb'.
    { destruct (shorten_cases b 0 infinity) as [[-> ?] | [[-> ?] | [-> ?]]];
        unfold infinity in *; lia. }
    assert (- infinity <= shorten d infinity 0) as Hd'.
    { destruct (shorten_cases d infinity 0) as [[-> ?] | [[-> ?] | [-> ?]]];
        unfold infinity in *; lia. }
    unfold pass. rewrite (Hl _ Hb'), (Hr _ Hd'). eexists. split; [done|]. done.
Qed.

Lemma reset_zero_witness :
  (∃ D', reset 1 0 (mkDBM 3 [0;-3;-3; 5;0;0; 5;0;0] "red") = Returns tt D'
         ∧ entry D' 1 0 = Some 0 ∧ entry D' 0 1 = Some 0)
  ∧ (∃ D', reset 2 0 (mkDBM 3 [0;-3;-3; 5;0;0; 5;0;0] "red") = Returns tt D'
           ∧ entry D' 2 0 = Some 0 ∧ entry D' 0 2 = Some 0).
Proof.
  destruct (reset_zero 0 (-3) (-3) 5 0 0 5 0 0 "red"%string)
    as [(D1 & _ & _ & _ & _ & H1) (D2 & _ & _ & _ & _ & H2)].
  split; [apply H1 | apply H2]; unfold infinity; lia.
Defined.

(** ** C7: [extrapolate] *)

Lemma extrapolated_within x mi mj :
  - infinity <= mj → within_maxima x mi mj → extrapolated x mi mj = x.
Proof.
  unfold within_maxima, extrapolated. intros Hmj Hw.
  destruct (Z.eq_dec x infinity) as [-> | Hx].
  - destruct (Z.gtb_spec infinity mi); [done|].
    by destruct (Z.gtb_spec (- infinity) mj); [lia|].
  - destruct (Hw Hx). destruct (Z.gtb_spec x mi); [lia|].
    by destruct (Z.gtb_spec (- x) mj); [lia|].
Qed.

(** C7, counterexample.  From [true(2)], the constraints [y<=5] and
    [x-y<=5] give a canonical DBM with [D[1,0] = 10]; [extrapolate 5]
    sets that entry to infinity since [10 > M[1] = 5], and the final
    [canonize] stores [D[1,2] + D[2,0] = 10] again: in the DBM returned,
    the bound above its maximum is 10, not infinity. *)
Lemma extrapolate_counterexample :
  true_ 2 "red" = Returns tt (true2 "red")
  ∧ (leq 2 0 5;; leq 1 2 5) (true2 "red") =
    Returns tt (mkDBM 3 [0;0;0; 10;infinity;5; 5;5;infinity] "red")
  ∧ canonize (mkDBM 3 [0;0;0; 10;infinity;5; 5;5;infinity] "red") =
    Returns tt (mkDBM 3 [0;0;0; 10;infinity;5; 5;5;infinity] "red")
  ∧ extrapolate_command [5] (mkDBM 3 [0;0;0; 10;infinity;5; 5;5;infinity] "red") =
    Returns tt (mkDBM 3 [0;0;0; 10;infinity;5; 5;5;infinity] "red")
  ∧ entry (mkDBM 3 [0;0;0; 10;infinity;5; 5;5;infinity] "red") 1 0 = Some 10
  ∧ 10 > 5 ∧ Some 10 ≠ Some infinity.
Proof. repeat split; try (vm_compute; reflexivity). done. Qed.

(** C7, as amended.  On every DBM on two clocks, [extrapolate(M)] with
    [M[0] = infinity] returns what [canonize] returns on the matrix in
    which every off-diagonal [D[i,j]] is replaced by infinity if
    [D[i,j] > M[i]], else by [-M[j]] if [-D[i,j] > M[j]] (so a bound above
    its maximum is infinity before [canonize], which may tighten it
    again); and it changes nothing in a DBM that [canonize] leaves as it
    is and whose finite off-diagonal bounds are within the maxima, the
    maxima being non-negative. *)
Theorem extrapolate_rule m1 m2 a b c d e f g h k col :
  extrapolate [infinity; m1; m2] (mkDBM 3 [a;b;c;d;e;f;g;h;k] col) =
    canonize (mkDBM 3 [a; extrapolated b infinity m1; extrapolated c infinity m2;
                       extrapolated d m1 infinity; e; extrapolated f m1 m2;
                       extrapolated g m2 infinity; extrapolated h m2 m1; k] col)
  ∧ (0 <= m1 → 0 <= m2 →
     canonize (mkDBM 3 [a;b;c;d;e;f;g;h;k] col) =
       Returns tt (mkDBM 3 [a;b;c;d;e;f;g;h;k] col) →
     within_maxima b infinity m1 → within_maxima c infinity m2 →
     within_maxima d m1 infinity → within_maxima f m1 m2 →
     within_maxima g m2 infinity → within_maxima h m2 m1 →
     extrapolate [infinity; m1; m2] (mkDBM 3 [a;b;c;d;e;f;g;h;k] col) =
       Returns tt (mkDBM 3 [a;b;c;d;e;f;g;h;k] col)).
Proof.
  split; [apply extrapolate_3x3|].
  intros H1 H2 Hcan Wb Wc Wd Wf Wg Wh. rewrite extrapolate_3x3.
  rewrite !extrapolated_within by (done || unfold infinity; lia). done.
Qed.

Lemma extrapolate_rule_witness :
  extrapolate [infinity; 5; 5] (mkDBM 3 [0;0;0; 3;0;3; infinity;infinity;0] "red") =
  Returns tt (mkDBM 3 [0;0;0; 3;0;3; infinity;infinity;0] "red").
Proof.
  apply (extrapolate_rule 5 5 0 0 0 3 0 3 infinity infinity 0 "red"%string);
    first [ lia | vm_compute; reflexivity
          | unfold within_maxima, infinity; lia ].
Defined.

(** ** C8: [extrapolate] is [lu_extrapolate] with equal bounds *)

(** C8.  For every DBM and every list of maxima [M] (in particular one
    with [M[0] = infinity]), [lu_extrapolate(M, M)] has the outcome of
    [extrapolate(M)]: the same matrix, or the same exception.  So the
    command [LUextrapolate a a b b] does what [extrapolate a b] does, and
    [LUextrapolate a a a a] what [extrapolate a] does, whenever the
    arguments are not negative (a negative argument is rejected by the
    [extrapolate] command, which then changes nothing). *)
Theorem lu_extrapolate_same :
  (∀ M s, lu_extrapolate M M s = extrapolate M s)
  ∧ (∀ m1 m2 s,
       lu_extrapolate [infinity; m1; m2] [infinity; m1; m2] s =
       extrapolate [infinity; m1; m2] s)
  ∧ (∀ m1 m2 s, 0 <= m1 → 0 <= m2 →
       lu_extrapolate_command [m1; m1; m2; m2] s =
       extrapolate_command [m1; m2] s)
  ∧ (∀ m s, 0 <= m →
       lu_extrapolate_command [m; m; m; m] s = extrapolate_command [m] s)
  ∧ (∀ m1 m2 s, m1 < 0 ∨ m2 < 0 →
       extrapolate_command [m1; m2] s = Returns tt s).
Proof.
  assert (∀ m, 0 <= m → isdigit m = true) as Hd.
  { intros m Hm. unfold isdigit. by destruct (Z.leb_spec 0 m); [|lia]. }
  assert (∀ m, m < 0 → isdigit m = false) as Hn.
  { intros m Hm. unfold isdigit. by destruct (Z.leb_spec 0 m); [lia|]. }
  split; [done|]. split; [done|]. split; [|split].
  - intros m1 m2 s H1 H2. unfold extrapolate_command.
    by rewrite (Hd m1 H1), (Hd m2 H2).
  - intros m s Hm. unfold extrapolate_command. by rewrite (Hd m Hm).
  - intros m1 m2 s Hneg. unfold extrapolate_command.
    destruct (Z.lt_ge_cases m1 0) as [H1|H1]; [by rewrite (Hn m1 H1)|].
    rewrite (Hd m1 H1). destruct Hneg as [?|H2]; [lia|].
    by rewrite (Hn m2 H2).
Qed.

Lemma lu_extrapolate_same_witness :
  lu_extrapolate_command [5; 5; 7; 7] (zero 2 "red") =
    extrapolate_command [5; 7] (zero 2 "red")
  ∧ lu_extrapolate_command [5; 5; 5; 5] (zero 2 "red") =
    extrapolate_command [5] (zero 2 "red")
  ∧ extrapolate_command [-1; -1] (zero 2 "red") = Returns tt (zero 2 "red").
Proof.
  destruct lu_extrapolate_same as (_ & _ & H2 & H1 & Hneg).
  split; [apply H2; lia|]. split; [apply H1; lia|]. apply Hneg. lia.
Defined.

(** ** C9: [copy] *)

(** C9.  In every store, for every DBM object [p]: [p.copy()] returns a
    new object [q] with the dimension, the matrix and the colour of [p]
    and leaves [p] as it is; afterwards every method call on [q] (a
    [__setitem__], an assignment of the colour, any mutator) is defined
    and leaves the state of [p] as it was, and every method call on [p]
    leaves the state of [q] as it was. *)
Theorem copy_independent st p d :
  view st p = Some d →
  ∃ q st',
    obj_copy p st = Some (q, st')
    ∧ q ≠ p
    ∧ view st' p = Some d
    ∧ (∃ d', view st' q = Some d'
         ∧ clocks d' = clocks d ∧ dbm d' = dbm d ∧ color d' = color d)
    ∧ (∀ A (m : method A), ∃ r st'',
         call m q st' = Some (r, st'') ∧ view st'' p = Some d)
    ∧ (∀ A (m : method A), ∃ r st'',
         call m p st' = Some (r, st'') ∧ view st'' q = view st' q).
Proof.
  intros Hv. destruct (view_Some _ _ _ Hv) as (o & Ho & Hl & Hd).
  destruct (obj_copy_spec _ _ _ _ Ho Hl)
    as (q & a2 & st' & Hcopy & Hqp & Ha2 & Hop & Hlp & Hoq & Hlq).
  assert (view st' p = Some d) as Hvp.
  { rewrite Hd. by apply view_intro. }
  pose proof (view_intro _ _ _ _ Hoq Hlq) as Hvq. cbn [o_clocks o_color] in Hvq.
  exists q, st'. split; [done|]. split; [done|]. split; [done|].
  split.
  { eexists. split; [exact Hvq|]. rewrite Hd. cbn. split; [lia|done]. }
  split.
  - intros A m. destruct (call_Some m q st' _ Hvq) as (r & st'' & Hcall).
    exists r, st''. split; [done|]. rewrite <- Hvp.
    eapply call_frame; [done..|]. intros o' Ho'. rewrite Hoq in Ho'.
    injection Ho' as <-. done.
  - intros A m. destruct (call_Some m p st' _ Hvp) as (r & st'' & Hcall).
    exists r, st''. split; [done|].
    eapply call_frame; [done..|]. intros o' Ho'. rewrite Hop in Ho'.
    injection Ho' as <-. cbn. done.
Qed.

Lemma copy_independent_witness :
  ∃ q st',
    obj_copy 1%positive (new_DBM 2 empty_store).2 = Some (q, st')
    ∧ q ≠ 1%positive
    ∧ view st' 1%positive = Some (zero 2 "red")
    ∧ (∃ d', view st' q = Some d'
         ∧ clocks d' = clocks (zero 2 "red") ∧ dbm d' = dbm (zero 2 "red")
         ∧ color d' = color (zero 2 "red"))
    ∧ (∀ A (m : method A), ∃ r st'',
         call m q st' = Some (r, st'') ∧ view st'' 1%positive = Some (zero 2 "red"))
    ∧ (∀ A (m : method A), ∃ r st'',
         call m 1%positive st' = Some (r, st'') ∧ view st'' q = view st' q).
Proof. apply copy_independent. vm_compute. reflexivity. Defined.

(** ** C10: the colour *)

(** C10.  [__eq__] answers True on two DBMs with the same dimension and
    matrix whatever their colours, and its answer does not change when
    either colour changes; and [is_consistent], [canonize], [leq], [free]
    and [reset] commute with a change of colour: on two DBMs that differ
    in the colour only they return the same value or raise the same
    exception, and leave the same matrix. *)
Theorem colour_irrelevant :
  (∀ n l c1 c2, eq_ (mkDBM n l c1) (mkDBM n l c2) = true)
  ∧ (∀ s1 s2 c1 c2, eq_ (recolor c1 s1) (recolor c2 s2) = eq_ s1 s2)
  ∧ colour_blind is_consistent
  ∧ colour_blind canonize
  ∧ (∀ i j v, colour_blind (leq i j v))
  ∧ (∀ i j, colour_blind (free i j))
  ∧ (∀ c v, colour_blind (reset c v)).
Proof.
  split.
  { intros n l c1 c2. unfold eq_. cbn. by rewrite Z.eqb_refl, zip_same_forallb. }
  split; [done|].
  eauto using cb_is_consistent, cb_canonize, cb_leq, cb_free, cb_reset.
Qed.

(** * Further properties of the DBM class *)

(** ** [is_consistent] on any number of clocks *)

Lemma first_some_None {A R} (f : A → option R) l :
  first_some f l = None ↔ ∀ x, x ∈ l → f x = None.
Proof.
  induction l as [|x l IH]; cbn.
  - split; [|done]. intros _ y Hy. by apply elem_of_nil in Hy.
  - destruct (f x) eqn:Hx.
    + split; [done|]. intros H. by rewrite (H x ltac:(left)) in Hx.
    + rewrite IH. split.
      * intros H y [->|Hy]%elem_of_cons; auto.
      * intros H y Hy. apply H. by right.
Qed.

Lemma first_some_false {A} (f : A → option bool) l :
  (∀ x v, f x = Some v → v = false) →
  default true (first_some f l) = true ↔ first_some f l = None.
Proof.
  intros Hf. destruct (first_some f l) as [v|] eqn:Hv; cbn; [|done].
  assert (v = false) as ->; [|done].
  clear -Hf Hv. induction l as [|x l IH]; [done|]. cbn in Hv.
  destruct (f x) eqn:Hx; [|auto]. injection Hv as <-. by eapply Hf.
Qed.

Lemma square_reads N (l : list Z) i j :
  Z.of_nat (length l) = N * N → 0 <= i < N → 0 <= j < N →
  0 <= i * N + j < Z.of_nat (length l).
Proof. intros -> Hi Hj. nia. Qed.

Lemma is_consistent_square N l col :
  square (mkDBM N l col) →
  ∃ b, is_consistent (mkDBM N l col) = Returns b (mkDBM N l col)
       ∧ (b = true ↔ pairwise_consistent (mkDBM N l col)).
Proof.
  unfold square. cbn [dbm clocks]. intros Hsq.
  set (inner := λ c1, first_some (violation N l c1) (range 0 N)).
  exists (default true (first_some inner (range 0 N))). split.
  - unfold is_consistent.
    rewrite (bind_Returns _ _ _ N (mkDBM N l col)) by done.
    erewrite bind_Returns; [done|].
    apply for_return_pure. intros c1 H1%elem_of_range.
    apply for_return_pure. intros c2 H2%elem_of_range.
    destruct (py_get_in_range l (c1 * N + c2)) as (x & Hx & _);
      [pose proof (square_reads N l c1 c2 Hsq H1 H2); lia|].
    destruct (py_get_in_range l (c2 * N + c1)) as (y & Hy & _);
      [pose proof (square_reads N l c2 c1 Hsq H2 H1); lia|].
    unfold violation. rewrite Hx, Hy. by apply consistent_pair_spec.
  - assert (∀ c1 c2 v, violation N l c1 c2 = Some v → v = false) as Hv.
    { intros c1 c2 v. unfold violation.
      destruct (py_get l _) as [x|]; [|done].
      destruct (py_get l _) as [y|]; [|done].
      destruct (- x >? y); [|done]. by intros [= <-]. }
    rewrite first_some_false.
    2:{ intros c1 v. unfold inner. intros Hin.
        destruct (first_some (violation N l c1) (range 0 N)) as [w|] eqn:Hw;
          [|done].
        injection Hin as <-. clear -Hv Hw.
        induction (range 0 N) as [|c2 r IH]; [done|]. cbn in Hw.
        destruct (violation N l c1 c2) eqn:Hc; [|auto].
        injection Hw as <-. by eapply Hv. }
    rewrite first_some_None. unfold inner, pairwise_consistent, entry.
    cbn [dbm clocks]. split.
    + intros Hnone i j x y Hi Hj Hx Hy.
      pose proof (Hnone i ltac:(by apply elem_of_range)) as Hrow.
      rewrite first_some_None in Hrow.
      specialize (Hrow j ltac:(by apply elem_of_range)).
      unfold violation in Hrow. rewrite Hx, Hy in Hrow.
      destruct (Z.gtb_spec (- x) y); [done|lia].
    + intros Hpc c1 H1%elem_of_range. apply first_some_None.
      intros c2 H2%elem_of_range. unfold violation.
      destruct (py_get l (c1 * N + c2)) as [x|] eqn:Hx; [|done].
      destruct (py_get l (c2 * N + c1)) as [y|] eqn:Hy; [|done].
      pose proof (Hpc c1 c2 x y H1 H2 Hx Hy).
      destruct (Z.gtb_spec (- x) y); [lia|done].
Qed.

(** X1.  On a square DBM with any number of clocks, [is_consistent]
    returns without raising, leaves the DBM as it is, and answers True
    exactly when no pair of clock indices has [-D[i,j] > D[j,i]]. *)
Theorem is_consistent_decides N l col :
  square (mkDBM N l col) →
  ∃ b, is_consistent (mkDBM N l col) = Returns b (mkDBM N l col)
       ∧ (b = true ↔ pairwise_consistent (mkDBM N l col)).
Proof. apply is_consistent_square. Qed.

Lemma is_consistent_decides_witness :
  ∃ b, is_consistent (mkDBM 3 [0;0;-3; 0;0;0; 0;0;0] "red") =
         Returns b (mkDBM 3 [0;0;-3; 0;0;0; 0;0;0] "red")
       ∧ (b = true ↔ pairwise_consistent (mkDBM 3 [0;0;-3; 0;0;0; 0;0;0] "red")).
Proof. apply is_consistent_decides. reflexivity. Defined.

(** ** [canonize] on any number of clocks *)

(** One iteration returns on a square matrix, writes [D[c1,c2]] only, and
    what it writes is below the old value or is infinity. *)
Lemma canonize_pair_square N l col c1 c2 :
  Z.of_nat (length l) = N * N → 0 <= c1 < N → 0 <= c2 < N →
  ∃ l', canonize_pair N c1 c2 (mkDBM N l col) = Returns tt (mkDBM N l' col)
        ∧ length l' = length l
        ∧ (∀ k : nat, (c1 = c2 ∨ k ≠ Z.to_nat (c1 * N + c2)) → l' !! k = l !! k)
        ∧ (∀ x x', l !! Z.to_nat (c1 * N + c2) = Some x →
                   l' !! Z.to_nat (c1 * N + c2) = Some x' →
                   x' <= x ∨ x' = infinity).
Proof.
  intros Hlen H1 H2. destruct (Z.eq_dec c1 c2) as [->|Hne].
  { exists l. unfold canonize_pair. rewrite Z.eqb_refl.
    repeat split; try done. intros x x' Hx Hx'. left.
    rewrite Hx in Hx'. injection Hx' as ->. lia. }
  destruct (canonize_reads N l c1 c2 Hlen H1 H2 Hne) as (Rx & Rp & Rq).
  destruct (py_get_in_range l _ Rp) as (p & Hp & _).
  destruct (py_get_in_range l _ Rq) as (q & Hq & _).
  destruct (py_get_in_range l (c1 * N + c2)) as (x & Hx & _); [lia|].
  exists (<[Z.to_nat (c1 * N + c2) := shorten x p q]> l). split.
  { eapply canonize_pair_spec; [done..|].
    unfold py_set. by rewrite py_index_nonneg. }
  split; [by rewrite length_insert|]. split.
  { intros k [?|Hk]; [done|]. by rewrite list_lookup_insert_ne. }
  intros x0 x' Hx0. rewrite py_get_nonneg in Hx by done.
  rewrite Hx in Hx0. injection Hx0 as <-.
  rewrite list_lookup_insert_eq by lia. intros [= <-].
  destruct (shorten_cases x p q) as [[-> ?] | [[-> ?] | [-> ?]]]; lia.
Qed.

Lemma diagonal_position N i c1 c2 :
  0 <= i < N → 0 <= c1 < N → 0 <= c2 < N → c1 ≠ c2 →
  Z.to_nat (i * N + i) ≠ Z.to_nat (c1 * N + c2).
Proof.
  intros Hi H1 H2 Hne Heq.
  assert (i * N + i = c1 * N + c2) as Hz by nia.
  assert (i = c1) by nia. nia.
Qed.

(** [canonize] on a square matrix: while the loops run, the positions
    before [b] hold a value below the original one or infinity, the
    positions from [b] on and the diagonal still hold the original
    value. *)
Lemma canonize_square N l col :
  Z.of_nat (length l) = N * N →
  ∃ l', canonize (mkDBM N l col) = Returns tt (mkDBM N l' col)
        ∧ length l' = length l
        ∧ (∀ i, 0 <= i < N →
             l' !! Z.to_nat (i * N + i) = l !! Z.to_nat (i * N + i))
        ∧ (∀ (k : nat) x x', l !! k = Some x → l' !! k = Some x' →
             x' <= x ∨ x' = infinity).
Proof.
  intros Hsq.
  set (J := λ (b : Z) (s : DBM), ∃ l', s = mkDBM N l' col
              ∧ length l' = length l
              ∧ (∀ i, 0 <= i < N →
                   l' !! Z.to_nat (i * N + i) = l !! Z.to_nat (i * N + i))
              ∧ (∀ (k : nat) x x', l !! k = Some x → l' !! k = Some x' →
                   (x' <= x ∨ x' = infinity) ∧ (b <= Z.of_nat k → x' = x))).
  assert (∃ b s', canonize (mkDBM N l col) = Returns tt s' ∧ J b s')
    as (b & s' & Hs' & (l' & -> & Hlen' & Hdiag & Hlow)).
  { unfold canonize.
    rewrite (bind_Returns _ _ _ N (mkDBM N l col)) by done.
    destruct (Z.le_gt_cases 0 N) as [HN|HN].
    2:{ unfold range. rewrite seqZ_nil by lia. exists 0, (mkDBM N l col).
        split; [done|]. exists l. repeat split; try done.
        - rewrite H in H0. injection H0 as ->. lia.
        - rewrite H in H0. by injection H0 as ->. }
    exists (N * N).
    apply (for_range_inv (λ c1, J (c1 * N))); [done| |].
    { exists l. repeat split; try done.
      - rewrite H in H0. injection H0 as ->. lia.
      - rewrite H in H0. by injection H0 as ->. }
    intros c1 s H1 Hs.
    replace ((c1 + 1) * N) with (c1 * N + N) by lia.
    apply (for_range_inv (λ c2, J (c1 * N + c2))); [done| |].
    { by replace (c1 * N + 0) with (c1 * N) by lia. }
    intros c2 s2 H2 (l2 & -> & Hlen2 & Hd2 & Hl2).
    destruct (canonize_pair_square N l2 col c1 c2)
      as (l3 & H3 & Hlen3 & Hk & Hw); [lia|done|done|].
    eexists. split; [done|]. exists l3. split; [done|]. split; [lia|]. split.
    { intros i Hi. rewrite <- Hd2 by done. apply Hk.
      destruct (Z.eq_dec c1 c2); [by left|right]. by apply diagonal_position. }
    intros k x x' Hx Hx'.
    destruct (decide (k = Z.to_nat (c1 * N + c2))) as [->|Hne].
    - destruct (lookup_lt_is_Some_2 l2 (Z.to_nat (c1 * N + c2))) as [x2 Hx2].
      { rewrite Hlen2. by eapply lookup_lt_Some. }
      destruct (Hl2 _ _ _ Hx Hx2) as [_ Heq].
      rewrite Heq in Hx2 by nia. split; [by eapply Hw|]. intros Hb. nia.
    - rewrite Hk in Hx' by (by right).
      destruct (Hl2 _ _ _ Hx Hx') as [Hlo Heq]. split; [done|].
      intros Hb. apply Heq. lia. }
  exists l'. split; [done|]. split; [done|]. split; [done|].
  intros k x x' Hx Hx'. by destruct (Hlow _ _ _ Hx Hx').
Qed.

(** X2.  On a square DBM with any number of clocks, [canonize] returns
    without raising (its third index [c3 = clocks - c1 - c2] may be
    negative and then wraps around the list, but never leaves it), and it
    keeps the dimension, the colour, the length of the list and every
    diagonal entry. *)
Theorem canonize_returns N l col :
  square (mkDBM N l col) →
  ∃ l', canonize (mkDBM N l col) = Returns tt (mkDBM N l' col)
        ∧ length l' = length l
        ∧ ∀ i, 0 <= i < N →
            entry (mkDBM N l' col) i i = entry (mkDBM N l col) i i.
Proof.
  unfold square. cbn [dbm clocks]. intros Hsq.
  destruct (canonize_square N l col Hsq) as (l' & Hl' & Hlen & Hdiag & _).
  exists l'. split; [done|]. split; [done|].
  intros i Hi. unfold entry. cbn [dbm clocks].
  rewrite !py_get_nonneg by nia. by apply Hdiag.
Qed.

Lemma canonize_returns_witness :
  ∃ l', canonize (mkDBM 4 (replicate 16 (-1)) "red") =
          Returns tt (mkDBM 4 l' "red")
        ∧ length l' = length (replicate 16 (-1))
        ∧ ∀ i, 0 <= i < 4 →
            entry (mkDBM 4 l' "red") i i
            = entry (mkDBM 4 (replicate 16 (-1)) "red") i i.
Proof. apply canonize_returns. reflexivity. Defined.

(** ** The outcomes of [leq] *)

(** X3.  On a square DBM with any number of clocks and clock indices
    within the matrix, [leq(i, j, v)] has exactly two outcomes, decided by
    the matrix [d1] in which [D[i,j]] is replaced by [min(D[i,j], v)]: if
    no pair of [d1] has [-D[a,b] > D[b,a]], [leq] returns what [canonize]
    returns on [d1]; otherwise it raises TypeError and leaves [d1].  It
    never raises IndexError and never returns an inconsistent [d1]
    collapsed. *)
Theorem leq_outcome N l col i j v :
  square (mkDBM N l col) → 0 <= i < N → 0 <= j < N →
  ∃ x, entry (mkDBM N l col) i j = Some x
    ∧ let d1 := mkDBM N (<[Z.to_nat (i * N + j) := Z.min x v]> l) col in
      (pairwise_consistent d1
         ∧ leq i j v (mkDBM N l col) = canonize d1
         ∧ ∃ l', canonize d1 = Returns tt (mkDBM N l' col))
      ∨ (¬ pairwise_consistent d1
         ∧ leq i j v (mkDBM N l col) = Raises TypeError d1).
Proof.
  intros Hsq Hi Hj. pose proof Hsq as Hsq'. unfold square in Hsq'.
  cbn [dbm clocks] in Hsq'.
  pose proof (square_reads N l i j Hsq' Hi Hj) as Hidx.
  destruct (py_get_in_range l (i * N + j)) as (x & Hx & _); [lia|].
  exists x. split; [done|]. cbv zeta.
  set (l1 := <[Z.to_nat (i * N + j) := Z.min x v]> l).
  assert (square (mkDBM N l1 col)) as Hsq1.
  { unfold square, l1. cbn [dbm clocks]. by rewrite length_insert. }
  destruct (is_consistent_square N l1 col Hsq1) as (ok & Hok & Hiff).
  assert (py_set l (i * N + j) (Z.min x v) = Some l1) as Hset.
  { unfold py_set. by rewrite py_index_nonneg. }
  rewrite (leq_spec i j v N l col x l1 ok Hx Hset Hok).
  destruct ok.
  - left. split; [by apply Hiff|]. split; [done|].
    destruct (canonize_square N l1 (col) Hsq1) as (l' & Hl' & _). by exists l'.
  - right. split; [|done]. intros Hpc. by apply Hiff in Hpc.
Qed.

Lemma leq_outcome_witness :
  ∃ x, entry (mkDBM 3 [0;0;0; 0;0;0; 0;0;0] "red") 0 2 = Some x
    ∧ let d1 := mkDBM 3 (<[Z.to_nat (0 * 3 + 2) := Z.min x (-3)]>
                           [0;0;0; 0;0;0; 0;0;0]) "red" in
      (pairwise_consistent d1
         ∧ leq 0 2 (-3) (mkDBM 3 [0;0;0; 0;0;0; 0;0;0] "red") = canonize d1
         ∧ ∃ l', canonize d1 = Returns tt (mkDBM 3 l' "red"))
      ∨ (¬ pairwise_consistent d1
         ∧ leq 0 2 (-3) (mkDBM 3 [0;0;0; 0;0;0; 0;0;0] "red")
           = Raises TypeError d1).
Proof. apply leq_outcome; [reflexivity|lia|lia]. Defined.

(** ** Indices outside the matrix *)

Lemma py_index_outside len i :
  ¬ (- Z.of_nat len <= i < Z.of_nat len) → py_index len i = None.
Proof.
  intros Hi. unfold py_index.
  destruct (Z.leb_spec 0 i), (Z.ltb_spec i (Z.of_nat len)); cbn [andb];
    try lia;
    destruct (Z.leb_spec (- Z.of_nat len) i), (Z.ltb_spec i 0); cbn [andb];
    try done; lia.
Qed.

(** X4.  When the flat position [i * clocks + j] lies outside the list
    (below [-len] or from [len] on), [__getitem__], [__setitem__], [leq]
    and [free] raise IndexError and leave the DBM as it is; so does
    [reset(c, v)] when [c * clocks] lies outside. *)
Theorem index_error s i j v :
  ¬ (- Z.of_nat (length (dbm s)) <= i * clocks s + j < Z.of_nat (length (dbm s))) →
  getitem i j s = Raises IndexError s
  ∧ setitem i j v s = Raises IndexError s
  ∧ leq i j v s = Raises IndexError s
  ∧ free i j s = Raises IndexError s
  ∧ (j = 0 → reset i v s = Raises IndexError s).
Proof.
  intros Hout.
  assert (getitem i j s = Raises IndexError s) as Hget.
  { unfold getitem, py_get. by rewrite py_index_outside. }
  assert (∀ w, setitem i j w s = Raises IndexError s) as Hset.
  { intros w. unfold setitem, py_set. by rewrite py_index_outside. }
  split; [done|]. split; [done|]. split; [by apply bind_Raises|]. split.
  - unfold free. destruct (Z.eqb_spec i 0) as [->|_]; apply Hset.
  - intros ->. unfold reset. by apply bind_Raises.
Qed.

Lemma index_error_witness :
  getitem 3 0 (mkDBM 2 [0;0;0;0] "red") = Raises IndexError (mkDBM 2 [0;0;0;0] "red")
  ∧ setitem 3 0 7 (mkDBM 2 [0;0;0;0] "red") = Raises IndexError (mkDBM 2 [0;0;0;0] "red")
  ∧ leq 3 0 7 (mkDBM 2 [0;0;0;0] "red") = Raises IndexError (mkDBM 2 [0;0;0;0] "red")
  ∧ free 3 0 (mkDBM 2 [0;0;0;0] "red") = Raises IndexError (mkDBM 2 [0;0;0;0] "red")
  ∧ (0 = 0 → reset 3 7 (mkDBM 2 [0;0;0;0] "red")
             = Raises IndexError (mkDBM 2 [0;0;0;0] "red")).
Proof. apply index_error. simpl. lia. Defined.

(** X5.  [__setitem__] checks the flat position only, not the column: on
    a square DBM, a column index in [clocks .. 2 * clocks - 1] on a row
    that is not the last is accepted, and the value is stored in the next
    row, every other entry staying as it is. *)
Theorem column_overflow N l col i j v :
  square (mkDBM N l col) → 0 <= i → i + 1 < N → 0 <= j < N →
  ∃ l', setitem i (N + j) v (mkDBM N l col) = Returns tt (mkDBM N l' col)
        ∧ entry (mkDBM N l' col) (i + 1) j = Some v
        ∧ ∀ r c, 0 <= r < N → 0 <= c < N → ¬ (r = i + 1 ∧ c = j) →
            entry (mkDBM N l' col) r c = entry (mkDBM N l col) r c.
Proof.
  unfold square. cbn [dbm clocks]. intros Hsq Hi Hi' Hj.
  assert (0 <= i * N + (N + j) < Z.of_nat (length l)) as Hidx by nia.
  eexists. split; [by apply setitem_nonneg|]. unfold entry. cbn [dbm clocks].
  split.
  - rewrite py_get_nonneg by (rewrite length_insert; nia).
    replace ((i + 1) * N + j) with (i * N + (N + j)) by lia.
    apply list_lookup_insert_eq. lia.
  - intros r c Hr Hc Hne.
    rewrite !py_get_nonneg by (rewrite ?length_insert; nia).
    apply list_lookup_insert_ne. intros Heq.
    assert (i * N + (N + j) = r * N + c) as Hz by nia.
    assert (r = i + 1) by nia. apply Hne. split; [done|nia].
Qed.

Lemma column_overflow_witness :
  ∃ l', setitem 0 (3 + 1) 7 (mkDBM 3 [0;0;0; 0;0;0; 0;0;0] "red")
        = Returns tt (mkDBM 3 l' "red")
        ∧ entry (mkDBM 3 l' "red") (0 + 1) 1 = Some 7
        ∧ ∀ r c, 0 <= r < 3 → 0 <= c < 3 → ¬ (r = 0 + 1 ∧ c = 1) →
            entry (mkDBM 3 l' "red") r c
            = entry (mkDBM 3 [0;0;0; 0;0;0; 0;0;0] "red") r c.
Proof. apply column_overflow; [reflexivity|lia..]. Defined.

(** ** [__eq__] *)

Lemma forallb_zip_eq (l1 l2 : list Z) :
  length l1 = length l2 →
  forallb (λ ab, ab.1 =? ab.2) (zip l1 l2) = true ↔ l1 = l2.
Proof.
  revert l2. induction l1 as [|x l1 IH]; intros [|y l2] Hlen; try done.
  cbn. rewrite andb_true_iff, Z.eqb_eq, IH by (cbn in Hlen; lia).
  split; [by intros [-> ->]|by intros [= -> ->]].
Qed.

Lemma forallb_zip_prefix (l k : list Z) :
  forallb (λ ab, ab.1 =? ab.2) (zip l (l ++ k)) = true.
Proof. induction l as [|x l IH]; [done|]. cbn. by rewrite Z.eqb_refl. Qed.

(** X6.  [__eq__] compares the dimensions and the two lists up to the
    length of the shorter one: on lists of the same length it answers
    True exactly when dimension and matrix are equal, whatever the
    colours; and a DBM whose list is extended by further elements still
    compares equal to the original. *)
Theorem eq_decides :
  (∀ d1 d2, length (dbm d1) = length (dbm d2) →
     (eq_ d1 d2 = true ↔ clocks d1 = clocks d2 ∧ dbm d1 = dbm d2))
  ∧ (∀ n l k c1 c2, eq_ (mkDBM n l c1) (mkDBM n (l ++ k) c2) = true).
Proof.
  split.
  - intros d1 d2 Hlen. unfold eq_.
    by rewrite andb_true_iff, Z.eqb_eq, forallb_zip_eq.
  - intros n l k c1 c2. unfold eq_. cbn.
    by rewrite Z.eqb_refl, forallb_zip_prefix.
Qed.

Lemma eq_decides_witness :
  eq_ (zero 2 "red") (false_ 2 "green") = true
  ↔ clocks (zero 2 "red") = clocks (false_ 2 "green")
    ∧ dbm (zero 2 "red") = dbm (false_ 2 "green").
Proof.
  destruct eq_decides as [H _]. apply H. reflexivity.
Defined.

(** ** What [canonize] does to the entries *)

(** X7.  On a square DBM with any number of clocks, [canonize] returns a
    matrix in which every entry is at most the entry it replaces, or is
    infinity; so if no entry was above infinity, none is afterwards. *)
Theorem canonize_lowers N l col :
  square (mkDBM N l col) →
  ∃ l', canonize (mkDBM N l col) = Returns tt (mkDBM N l' col)
        ∧ (∀ i j x x', 0 <= i < N → 0 <= j < N →
             entry (mkDBM N l col) i j = Some x →
             entry (mkDBM N l' col) i j = Some x' →
             x' <= x ∨ x' = infinity)
        ∧ ((∀ x, x ∈ l → x <= infinity) → ∀ x, x ∈ l' → x <= infinity).
Proof.
  unfold square. cbn [dbm clocks]. intros Hsq.
  destruct (canonize_square N l col Hsq) as (l' & Hl' & Hlen & _ & Hlow).
  exists l'. split; [done|]. split.
  - intros i j x x' Hi Hj. unfold entry. cbn [dbm clocks].
    rewrite !py_get_nonneg by nia. apply Hlow.
  - intros Hle x' [k Hk]%list_elem_of_lookup_1.
    destruct (lookup_lt_is_Some_2 l k) as [x Hx].
    { rewrite <- Hlen. by eapply lookup_lt_Some. }
    destruct (Hlow k x x' Hx Hk) as [?| ->]; [|done].
    assert (x <= infinity); [|lia]. apply Hle. by eapply list_elem_of_lookup_2.
Qed.

Lemma canonize_lowers_witness :
  ∃ l', canonize (mkDBM 3 [0;0;0; 9;0;infinity; 4;infinity;0] "red")
        = Returns tt (mkDBM 3 l' "red")
        ∧ (∀ i j x x', 0 <= i < 3 → 0 <= j < 3 →
             entry (mkDBM 3 [0;0;0; 9;0;infinity; 4;infinity;0] "red") i j = Some x →
             entry (mkDBM 3 l' "red") i j = Some x' →
             x' <= x ∨ x' = infinity)
        ∧ ((∀ x, x ∈ [0;0;0; 9;0;infinity; 4;infinity;0] → x <= infinity) →
           ∀ x, x ∈ l' → x <= infinity).
Proof. apply canonize_lowers. reflexivity. Defined.

(** ** A bound that is not tighter *)

(** X8.  On a DBM with any number of clocks that [is_consistent] accepts
    and [canonize] leaves as it is, [leq(i, j, v)] with a bound [v] that is
    not below the current [D[i,j]] returns and changes nothing. *)
Theorem leq_no_op s i j x v :
  entry s i j = Some x → x <= v →
  is_consistent s = Returns true s →
  canonize s = Returns tt s →
  leq i j v s = Returns tt s.
Proof.
  destruct s as [n l col]. unfold entry. cbn [dbm clocks].
  intros Hx Hv Hok Hcan.
  assert (py_set l (i * n + j) (Z.min x v) = Some l) as Hset.
  { rewrite Z.min_l by done. revert Hx. unfold py_get, py_set.
    destruct (py_index (length l) (i * n + j)) as [k|]; cbn; [|done].
    intros Hk. by rewrite list_insert_id. }
  by rewrite (leq_spec i j v n l col x l true Hx Hset Hok).
Qed.

Lemma leq_no_op_witness :
  leq 1 0 7 (mkDBM 3 [0;0;0; 5;0;5; 3;0;0] "red")
  = Returns tt (mkDBM 3 [0;0;0; 5;0;5; 3;0;0] "red").
Proof.
  apply (leq_no_op _ 1 0 5 7);
    [reflexivity | lia | vm_compute; reflexivity | vm_compute; reflexivity].
Defined.

(** ** [up] and [down] on a canonical DBM *)

Lemma up_3x3 a b c d e f g h i col :
  up (mkDBM 3 [a;b;c;d;e;f;g;h;i] col) =
  Returns tt (mkDBM 3 [a;b;c; infinity;e;f; infinity;h;i] col).
Proof. reflexivity. Qed.

Lemma down_3x3 a b c d e f g h i col :
  down (mkDBM 3 [a;b;c;d;e;f;g;h;i] col) =
  Returns tt (mkDBM 3 [a;0;0; d;e;f; g;h;i] col).
Proof. reflexivity. Qed.

(** X9.  On two clocks, [up] applied to a DBM that [canonize] leaves as
    it is, with upper bounds [D[1,0]] and [D[2,0]] at most infinity,
    returns a DBM that [canonize] leaves as it is: the command needs no
    call of [canonize]. *)
Theorem up_keeps_canonical a b c d e f g h i col :
  d <= infinity → g <= infinity →
  canonize (mkDBM 3 [a;b;c;d;e;f;g;h;i] col) =
    Returns tt (mkDBM 3 [a;b;c;d;e;f;g;h;i] col) →
  up (mkDBM 3 [a;b;c;d;e;f;g;h;i] col) =
    Returns tt (mkDBM 3 [a;b;c; infinity;e;f; infinity;h;i] col)
  ∧ canonize (mkDBM 3 [a;b;c; infinity;e;f; infinity;h;i] col) =
    Returns tt (mkDBM 3 [a;b;c; infinity;e;f; infinity;h;i] col).
Proof.
  intros Hd Hg Hcan. split; [apply up_3x3|].
  apply fixed_tight in Hcan. apply canonize_fixed.
  revert Hcan. unfold all_tight, tight. lia.
Qed.

Lemma up_keeps_canonical_witness :
  up (mkDBM 3 [0;-3;0; 8;0;5; 3;-3;0] "red") =
    Returns tt (mkDBM 3 [0;-3;0; infinity;0;5; infinity;-3;0] "red")
  ∧ canonize (mkDBM 3 [0;-3;0; infinity;0;5; infinity;-3;0] "red") =
    Returns tt (mkDBM 3 [0;-3;0; infinity;0;5; infinity;-3;0] "red").
Proof.
  apply up_keeps_canonical;
    [unfold infinity; lia | unfold infinity; lia | vm_compute; reflexivity].
Defined.

(** X10.  On two clocks, [down] applied to a DBM that [canonize] leaves
    as it is, with [D[0,1]] and [D[0,2]] at most 0, returns a DBM that
    [canonize] leaves as it is exactly when neither difference bound
    [D[1,2]], [D[2,1]] is negative; otherwise the caller has to call
    [canonize], which the command does not. *)
Theorem down_keeps_canonical a b c d e f g h i col :
  b <= 0 → c <= 0 →
  canonize (mkDBM 3 [a;b;c;d;e;f;g;h;i] col) =
    Returns tt (mkDBM 3 [a;b;c;d;e;f;g;h;i] col) →
  down (mkDBM 3 [a;b;c;d;e;f;g;h;i] col) =
    Returns tt (mkDBM 3 [a;0;0; d;e;f; g;h;i] col)
  ∧ (canonize (mkDBM 3 [a;0;0; d;e;f; g;h;i] col) =
       Returns tt (mkDBM 3 [a;0;0; d;e;f; g;h;i] col)
     ↔ 0 <= f ∧ 0 <= h).
Proof.
  intros Hb Hc Hcan. split; [apply down_3x3|].
  apply fixed_tight in Hcan. split.
  - intros H0. apply fixed_tight in H0. revert H0.
    unfold all_tight, tight, infinity. lia.
  - intros Hfh. apply canonize_fixed. revert Hcan.
    unfold all_tight, tight, infinity. lia.
Qed.

Lemma down_keeps_canonical_witness :
  down (mkDBM 3 [0;-3;0; 8;0;5; 3;-3;0] "red") =
    Returns tt (mkDBM 3 [0;0;0; 8;0;5; 3;-3;0] "red")
  ∧ (canonize (mkDBM 3 [0;0;0; 8;0;5; 3;-3;0] "red") =
       Returns tt (mkDBM 3 [0;0;0; 8;0;5; 3;-3;0] "red")
     ↔ 0 <= 5 ∧ 0 <= -3).
Proof.
  apply down_keeps_canonical; [lia | lia | vm_compute; reflexivity].
Defined.

(** ** [reset] to a value, on two clocks *)

Lemma shorten_keep x u v : x <= u + v → shorten x u v = x.
Proof. intros H. unfold shorten. by destruct (Z.gtb_spec x (u + v)); [lia|]. Qed.

Lemma shorten_sum u v :
  u + v < infinity → u ≠ infinity → v ≠ infinity →
  shorten infinity u v = u + v.
Proof.
  intros H Hu Hv. unfold shorten, path_sum.
  destruct (Z.gtb_spec infinity (u + v)); [|lia].
  by destruct (Z.eqb_spec u infinity), (Z.eqb_spec v infinity).
Qed.

Lemma shorten_min u v :
  0 <= v < infinity → u <= infinity →
  shorten infinity u v = Z.min (u + v) infinity.
Proof.
  intros Hv Hu. destruct (Z.lt_ge_cases (u + v) infinity).
  - rewrite shorten_sum by lia. lia.
  - rewrite shorten_keep by lia. lia.
Qed.

(** X11.  On two clocks, [reset(c, v)] with [0 <= v < infinity], when the
    other clock [c2] has [v - infinity <= D[0,c2] <= 0] and
    [0 <= D[c2,0] <= infinity], returns the matrix with
    [D[c,0] = D[0,c] = v], [D[c,c2] = v + D[0,c2]] and
    [D[c2,c] = min(D[c2,0] + v, infinity)], and leaves the bounds of [c2]
    and the diagonal as they are.  For [v = 0], the value the interpreter
    passes, the difference bounds are the bounds of the other clock. *)
Theorem reset_value v a b c d e f g h i col :
  0 <= v < infinity →
  (v - infinity <= c <= 0 → 0 <= g <= infinity →
   reset 1 v (mkDBM 3 [a;b;c;d;e;f;g;h;i] col) =
   Returns tt (mkDBM 3 [a; v; c;  v; e; v + c;
                        g; Z.min (g + v) infinity; i] col))
  ∧ (v - infinity <= b <= 0 → 0 <= d <= infinity →
     reset 2 v (mkDBM 3 [a;b;c;d;e;f;g;h;i] col) =
     Returns tt (mkDBM 3 [a; b; v;  d; e; Z.min (d + v) infinity;
                          v; v + b; i] col)).
Proof.
  intros Hv. split.
  - intros Hc Hg. rewrite reset_1_3x3, canonize_pass. unfold pass.
    rewrite (shorten_keep v c infinity) by lia.
    rewrite (shorten_keep c v infinity) by lia.
    rewrite (shorten_keep v infinity g) by lia.
    rewrite (shorten_sum v c) by (unfold infinity in *; lia).
    rewrite (shorten_keep g infinity v) by lia.
    by rewrite (shorten_min g v) by lia.
  - intros Hb Hd. rewrite reset_2_3x3, canonize_pass. unfold pass.
    rewrite (shorten_keep b v infinity) by lia.
    rewrite (shorten_keep v b infinity) by lia.
    rewrite (shorten_keep d infinity v) by lia.
    rewrite (shorten_min d v) by lia.
    rewrite (shorten_keep v infinity d) by lia.
    by rewrite (shorten_sum v b) by (unfold infinity in *; lia).
Qed.

Lemma reset_value_witness :
  reset 1 0 (mkDBM 3 [0;-3;-2; 8;0;5; 4;-3;0] "red") =
  Returns tt (mkDBM 3 [0; 0; -2;  0; 0; 0 + -2;
                       4; Z.min (4 + 0) infinity; 0] "red").
Proof.
  destruct (reset_value 0 0 (-3) (-2) 8 0 5 4 (-3) 0 "red"%string) as [H _];
    [unfold infinity; lia|].
  apply H; unfold infinity; lia.
Defined.

(** ** [canonize] and [is_consistent] *)

(** X12.  On two clocks, [canonize] applied to a matrix with no entry
    above infinity, no negative cycle and no negative diagonal entry
    returns a matrix that [is_consistent] accepts. *)
Theorem canonize_keeps_consistent a b c d e f g h i col :
  sane b c d f g h → 0 <= a → 0 <= e → 0 <= i →
  ∃ D', canonize (mkDBM 3 [a;b;c;d;e;f;g;h;i] col) = Returns tt D'
        ∧ is_consistent D' = Returns true D'.
Proof.
  intros S Ha He Hi. rewrite canonize_pass.
  pose proof (pass_tight _ _ _ _ _ _ S) as HT.
  destruct (pass b c d f g h) as [[[[[b' c'] d'] f'] g'] h'].
  destruct HT as [S' _]. eexists. split; [done|].
  rewrite is_consistent_3x3.
  replace (consistent3 a b' c' d' e f' g' h' i) with true; [done|].
  symmetry. unfold consistent3. apply negb_true_iff.
  destruct S' as (_ & (? & ? & ?) & _).
  repeat (apply orb_false_iff; split);
    match goal with |- (?x >? ?y) = false =>
      destruct (Z.gtb_spec x y); [lia|done] end.
Qed.

Lemma canonize_keeps_consistent_witness :
  ∃ D', canonize (mkDBM 3 [0;0;0; infinity;0;3; 7;infinity;0] "red") = Returns tt D'
        ∧ is_consistent D' = Returns true D'.
Proof.
  apply canonize_keeps_consistent; [unfold sane, infinity; lia | lia..].
Defined.

(** ** The constraint commands *)

Lemma consistent3_false a b c d e f g h i :
  - b > d ∨ - c > g ∨ - f > h ∨ - e > e →
  consistent3 a b c d e f g h i = false.
Proof.
  intros H. unfold consistent3. apply negb_false_iff.
  repeat rewrite orb_true_iff.
  destruct H as [H | [H | [H | H]]].
  - do 7 left. right. destruct (Z.gtb_spec (- b) d); [done|lia].
  - do 6 left. right. destruct (Z.gtb_spec (- c) g); [done|lia].
  - do 3 left. right. destruct (Z.gtb_spec (- f) h); [done|lia].
  - do 4 left. right. destruct (Z.gtb_spec (- e) e); [done|lia].
Qed.

Lemma leq_raises_3x3 i j v a b c d e f g h k col x a1 b1 c1 d1 e1 f1 g1 h1 k1 :
  py_get [a;b;c;d;e;f;g;h;k] (i * 3 + j) = Some x →
  py_set [a;b;c;d;e;f;g;h;k] (i * 3 + j) (Z.min x v)
    = Some [a1;b1;c1;d1;e1;f1;g1;h1;k1] →
  consistent3 a1 b1 c1 d1 e1 f1 g1 h1 k1 = false →
  leq i j v (mkDBM 3 [a;b;c;d;e;f;g;h;k] col) =
  Raises TypeError (mkDBM 3 [a1;b1;c1;d1;e1;f1;g1;h1;k1] col).
Proof.
  intros Hx Hset Hc.
  rewrite (leq_spec i j v 3 _ col x _ false Hx Hset); [done|].
  by rewrite is_consistent_3x3, Hc.
Qed.

(** X13.  A single-clock constraint that contradicts the opposite bound
    ends the session with TypeError, on every DBM on two clocks: [x <= v]
    (or [x < v]) with [0 <= v < -D[0,1]], and [x >= v] (or [x > v]) with
    [v >= 0] and [v > D[1,0]], raise TypeError and leave the tightened
    bound in the matrix; likewise for [y]. *)
Theorem constraint_raises v a b c d e f g h i col :
  0 <= v →
  (v < - b →
   constrain_command "x" "<=" v (mkDBM 3 [a;b;c;d;e;f;g;h;i] col) =
     Raises TypeError (mkDBM 3 [a;b;c; Z.min d v;e;f; g;h;i] col)
   ∧ constrain_command "x" "<" v (mkDBM 3 [a;b;c;d;e;f;g;h;i] col) =
     Raises TypeError (mkDBM 3 [a;b;c; Z.min d v;e;f; g;h;i] col))
  ∧ (d < v →
     constrain_command "x" ">=" v (mkDBM 3 [a;b;c;d;e;f;g;h;i] col) =
       Raises TypeError (mkDBM 3 [a;Z.min b (- v);c; d;e;f; g;h;i] col)
     ∧ constrain_command "x" ">" v (mkDBM 3 [a;b;c;d;e;f;g;h;i] col) =
       Raises TypeError (mkDBM 3 [a;Z.min b (- v);c; d;e;f; g;h;i] col))
  ∧ (v < - c →
     constrain_command "y" "<=" v (mkDBM 3 [a;b;c;d;e;f;g;h;i] col) =
       Raises TypeError (mkDBM 3 [a;b;c; d;e;f; Z.min g v;h;i] col)
     ∧ constrain_command "y" "<" v (mkDBM 3 [a;b;c;d;e;f;g;h;i] col) =
       Raises TypeError (mkDBM 3 [a;b;c; d;e;f; Z.min g v;h;i] col))
  ∧ (g < v →
     constrain_command "y" ">=" v (mkDBM 3 [a;b;c;d;e;f;g;h;i] col) =
       Raises TypeError (mkDBM 3 [a;b;Z.min c (- v); d;e;f; g;h;i] col)
     ∧ constrain_command "y" ">" v (mkDBM 3 [a;b;c;d;e;f;g;h;i] col) =
       Raises TypeError (mkDBM 3 [a;b;Z.min c (- v); d;e;f; g;h;i] col)).
Proof.
  intros Hv.
  assert ((v <? 0) = false) as Hneg by (by destruct (Z.ltb_spec v 0); [lia|]).
  split; [|split; [|split]]; intros Hlt; split;
    unfold constrain_command; cbn; rewrite Hneg;
    (eapply leq_raises_3x3; [reflexivity | reflexivity |]);
    apply consistent3_false; lia.
Qed.

Lemma constraint_raises_witness :
  constrain_command "y" ">" 3 (mkDBM 3 [0;0;0; 0;0;0; 0;0;0] "red") =
  Raises TypeError (mkDBM 3 [0;0;Z.min 0 (- 3); 0;0;0; 0;0;0] "red").
Proof.
  destruct (constraint_raises 3 0 0 0 0 0 0 0 0 0 "red"%string)
    as (_ & _ & _ & H); [lia|].
  apply H. lia.
Defined.

(** ** The [copy] command *)

Lemma string_app_cons c (s1 s2 : string) :
  (String.String c s1 +:+ s2 = String.String c (s1 +:+ s2))%string.
Proof. reflexivity. Qed.

Lemma string_app_assoc (s1 s2 s3 : string) :
  ((s1 +:+ s2) +:+ s3 = s1 +:+ (s2 +:+ s3))%string.
Proof.
  induction s1 as [|c s1 IH]; [done|]. by rewrite !string_app_cons, IH.
Qed.

Lemma string_app_nil_r (s : string) : (s +:+ "" = s)%string.
Proof. induction s as [|c s IH]; [done|]. by rewrite string_app_cons, IH. Qed.

Lemma string_length_app (s1 s2 : string) :
  String.length (s1 +:+ s2) = (String.length s1 + String.length s2)%nat.
Proof.
  induction s1 as [|c s1 IH]; [done|]. rewrite string_app_cons. cbn.
  by rewrite IH.
Qed.

Lemma primed_ne (name : string) j : ((name +:+ "'") +:+ primes j)%string ≠ name.
Proof.
  intros H. apply (f_equal String.length) in H.
  rewrite !string_length_app in H. cbn in H. lia.
Qed.

(** Names that the loop never tests do not matter. *)
Lemma copy_name_delete {V} fuel (m : gmap string V) (old name : string) :
  (∀ j, (name +:+ primes j)%string ≠ old) →
  copy_name fuel (delete old m) name = copy_name fuel m name.
Proof.
  revert name. induction fuel as [|fuel IH]; intros name Hne; [done|].
  cbn [copy_name].
  assert (name ≠ old) as Hn.
  { specialize (Hne 0%nat). cbn in Hne. by rewrite string_app_nil_r in Hne. }
  rewrite lookup_delete_ne by done.
  destruct (decide (is_Some (m !! name))); [|done].
  apply IH. intros j. rewrite string_app_assoc. apply (Hne (S j)).
Qed.

(** The loop ends within [size m + 1] tests, at the first name that is
    free. *)
Lemma copy_name_spec {V} fuel (m : gmap string V) (name : string) :
  (size m < fuel)%nat →
  ∃ k, copy_name fuel m name = Some (name +:+ primes k)%string
       ∧ m !! (name +:+ primes k)%string = None
       ∧ ∀ j, (j < k)%nat → is_Some (m !! (name +:+ primes j)%string).
Proof.
  revert m name. induction fuel as [|fuel IH]; intros m name Hsz; [lia|].
  cbn [copy_name]. destruct (decide (is_Some (m !! name))) as [Hin|Hout].
  - destruct (IH (delete name m) (name +:+ "'")%string) as (k & Hk & Hfree & Hused).
    { rewrite map_size_delete_Some by done.
      assert (size m ≠ 0%nat); [|lia].
      intros H0%map_size_empty_iff. rewrite H0 in Hin.
      rewrite lookup_empty in Hin. by destruct Hin. }
    exists (S k). cbn [primes]. rewrite <- !string_app_assoc.
    rewrite copy_name_delete in Hk by apply primed_ne.
    split; [done|]. split.
    + rewrite lookup_delete_ne in Hfree; [done|].
      intros H. symmetry in H. by apply primed_ne in H.
    + intros [|j] Hj.
      * cbn. by rewrite string_app_nil_r.
      * cbn [primes]. rewrite <- string_app_assoc.
        specialize (Hused j ltac:(lia)).
        rewrite lookup_delete_ne in Hused; [done|].
        intros H. symmetry in H. by apply primed_ne in H.
  - exists 0%nat. cbn. rewrite string_app_nil_r. split; [done|].
    split; [|lia]. by apply eq_None_not_Some.
Qed.

(** X14.  The loop of [copy] that looks for a free name ends: within
    [size dbms + 1] tests it stops at the selected name followed by [k]
    quote characters, where [k] is the least number for which that name is
    not in [dbms]; no name already in use is chosen. *)
Theorem copy_name_fresh {V} fuel (m : gmap string V) (name : string) :
  (size m < fuel)%nat →
  ∃ k, copy_name fuel m name = Some (name +:+ primes k)%string
       ∧ m !! (name +:+ primes k)%string = None
       ∧ ∀ j, (j < k)%nat → is_Some (m !! (name +:+ primes j)%string).
Proof. apply copy_name_spec. Qed.

Lemma copy_name_fresh_witness :
  ∃ k, copy_name 3 (<["a'" := 2%positive]> {["a" := 1%positive]}) "a"
       = Some ("a" +:+ primes k)%string
       ∧ (<["a'" := 2%positive]> {["a" := 1%positive]} : gmap string positive)
           !! ("a" +:+ primes k)%string = None
       ∧ ∀ j, (j < k)%nat →
           is_Some ((<["a'" := 2%positive]> {["a" := 1%positive]}
                     : gmap string positive) !! ("a" +:+ primes j)%string).
Proof. apply copy_name_fresh. vm_compute. lia. Defined.

(** What [copy_as] builds. *)
Lemma copy_as_spec name cur ss p d :
  dbms ss !! cur = Some (Some p) →
  view (heap ss) p = Some d →
  ∃ q ss',
    copy_as name cur ss = Some ss'
    ∧ current_dbm ss' = Some name
    ∧ dbms ss' = <[name := Some q]> (dbms ss)
    ∧ objects (heap ss) !! q = None
    ∧ view (heap ss') q =
        Some (mkDBM (clocks d) (dbm d)
                (default "red"%string
                   (colors !! (S (color_iter (heap ss)) `mod` 6)%nat)))
    ∧ (∀ r d', view (heap ss) r = Some d' → view (heap ss') r = Some d')
    ∧ color_iter (heap ss') = (color_iter (heap ss) + 2)%nat.
Proof.
  intros Hcur Hv. destruct (view_Some _ _ _ Hv) as (o & Ho & Hl & Hd).
  unfold copy_as. rewrite Hcur. cbn [mbind option_bind id].
  unfold obj_copy. rewrite Ho. cbn [mbind option_bind]. rewrite Hl.
  cbn [mbind option_bind].
  unfold new_DBM, alloc_list, next_color, alloc_object.
  cbn [lists objects color_iter].
  set (zeros := replicate _ 0).
  set (a := fresh (dom (lists (heap ss)))).
  set (q := fresh (dom (objects (heap ss)))).
  set (a2 := fresh (dom (<[a:=zeros]> (lists (heap ss))))).
  rewrite lookup_insert_eq. cbn [mbind option_bind o_clocks].
  unfold call. cbn [lists objects color_iter].
  rewrite lookup_insert_eq. cbn [mbind option_bind o_dbm o_clocks o_color].
  rewrite lookup_insert_eq. cbn [mbind option_bind].
  assert (objects (heap ss) !! q = None) as Hq.
  { apply not_elem_of_dom. apply is_fresh. }
  assert (lists (heap ss) !! a = None) as Ha.
  { apply not_elem_of_dom. apply is_fresh. }
  assert (a2 ≠ a) as Ha2.
  { intros E. apply (is_fresh (dom (<[a:=zeros]> (lists (heap ss))))).
    fold a2. rewrite E. apply elem_of_dom. rewrite lookup_insert_eq. by eexists. }
  assert (lists (heap ss) !! a2 = None) as Ha2'.
  { apply not_elem_of_dom. intros Hin.
    apply (is_fresh (dom (<[a:=zeros]> (lists (heap ss))))).
    fold a2. rewrite dom_insert. set_solver. }
  exists q. eexists. split; [reflexivity|]. cbn [current_dbm dbms heap].
  split; [done|]. split; [done|]. split; [done|]. split; [|split].
  - unfold view. cbn [objects lists]. rewrite lookup_insert_eq.
    cbn [mbind option_bind o_dbm]. rewrite lookup_insert_eq.
    cbn [mbind option_bind o_clocks o_color set_color dbm color].
    rewrite Hd. cbn [clocks dbm].
    by replace (o_clocks o - 1 + 1) with (o_clocks o) by lia.
  - intros r d' Hr. destruct (view_Some _ _ _ Hr) as (o' & Ho' & Hl' & ->).
    unfold view. cbn [objects lists].
    assert (r ≠ q) as Hrq by (intros ->; by rewrite Hq in Ho').
    rewrite !lookup_insert_ne by done. rewrite Ho'.
    cbn [mbind option_bind].
    assert (o_dbm o' ≠ a) by (intros E; by rewrite E, Ha in Hl').
    assert (o_dbm o' ≠ a2) by (intros E; by rewrite E, Ha2' in Hl').
    rewrite !lookup_insert_ne by done. by rewrite Hl'.
  - cbn [color_iter]. lia.
Qed.

(** X15.  The [copy] command without an argument, on a session whose
    selected DBM exists: it binds a name that was free (the selected name
    followed by one or more quote characters) to a new object and selects
    it; the new DBM has the dimension and the matrix of the selected one;
    every DBM that existed keeps its state; and [color_iter] advances by
    two, the copy getting the second of the two colours drawn (the first
    is drawn by the constructor inside [copy()] and overwritten). *)
Theorem copy_command_result ss cur p d :
  current_dbm ss = Some cur →
  dbms ss !! cur = Some (Some p) →
  view (heap ss) p = Some d →
  ∃ k q ss',
    copy_command ["copy"%string] ss = Some ss'
    ∧ (1 <= k)%nat
    ∧ dbms ss !! (cur +:+ primes k)%string = None
    ∧ current_dbm ss' = Some (cur +:+ primes k)%string
    ∧ dbms ss' = <[(cur +:+ primes k)%string := Some q]> (dbms ss)
    ∧ objects (heap ss) !! q = None
    ∧ view (heap ss') q =
        Some (mkDBM (clocks d) (dbm d)
                (default "red"%string
                   (colors !! (S (color_iter (heap ss)) `mod` 6)%nat)))
    ∧ (∀ r d', view (heap ss) r = Some d' → view (heap ss') r = Some d')
    ∧ color_iter (heap ss') = (color_iter (heap ss) + 2)%nat.
Proof.
  intros Hsel Hcur Hv. unfold copy_command. rewrite Hsel.
  destruct (copy_name_spec (S (size (dbms ss))) (dbms ss) cur)
    as (k & Hk & Hfree & Hused); [lia|].
  rewrite Hk. cbn [mbind option_bind].
  destruct (copy_as_spec (cur +:+ primes k)%string cur ss p d Hcur Hv)
    as (q & ss' & Hss' & H1 & H2 & H3 & H4 & H5 & H6).
  exists k, q, ss'. split; [done|]. split; [|done].
  destruct k as [|k]; [|lia]. cbn in Hfree. rewrite string_app_nil_r in Hfree.
  by rewrite Hfree in Hcur.
Qed.

Lemma copy_command_result_witness :
  ∃ k q ss',
    copy_command ["copy"%string] one_dbm_session = Some ss'
    ∧ (1 <= k)%nat
    ∧ dbms one_dbm_session !! ("a" +:+ primes k)%string = None
    ∧ current_dbm ss' = Some ("a" +:+ primes k)%string
    ∧ dbms ss' = <[("a" +:+ primes k)%string := Some q]> (dbms one_dbm_session)
    ∧ objects (heap one_dbm_session) !! q = None
    ∧ view (heap ss') q =
        Some (mkDBM (clocks (mkDBM 2 [0;0;0;0] "red"))
                (dbm (mkDBM 2 [0;0;0;0] "red"))
                (default "red"%string
                   (colors !! (S (color_iter (heap one_dbm_session)) `mod` 6)%nat)))
    ∧ (∀ r d', view (heap one_dbm_session) r = Some d' →
               view (heap ss') r = Some d')
    ∧ color_iter (heap ss') = (color_iter (heap one_dbm_session) + 2)%nat.
Proof.
  apply (copy_command_result one_dbm_session "a"%string 1%positive
           (mkDBM 2 [0;0;0;0] "red")); reflexivity.
Defined.

(** ** The difference-constraint command *)

(** X16.  A difference constraint that names an unknown clock is not
    rejected: the unknown clock counts as the reference clock 0, so for
    [v >= 0] and any name [n] other than [x] and [y], [x - n <= v] does
    what [x <= v] does and [n - x <= -v] does what [x >= v] does, on every
    DBM; likewise for [y]. *)
Theorem diff_unknown_clock name v s :
  name ≠ "x"%string → name ≠ "y"%string → 0 <= v →
  diff_constrain_command "x" name "<=" v s = constrain_command "x" "<=" v s
  ∧ diff_constrain_command name "x" "<=" (- v) s = constrain_command "x" ">=" v s
  ∧ diff_constrain_command "y" name "<=" v s = constrain_command "y" "<=" v s
  ∧ diff_constrain_command name "y" "<=" (- v) s = constrain_command "y" ">=" v s.
Proof.
  intros Hx Hy Hv.
  assert ((v <? 0) = false) as Hneg by (by destruct (Z.ltb_spec v 0); [lia|]).
  unfold diff_constrain_command, diff_clocks, constrain_command. cbn.
  rewrite !(bool_decide_eq_false_2 (name = "x"%string)) by done.
  rewrite !(bool_decide_eq_false_2 (name = "y"%string)) by done.
  by rewrite Hneg.
Qed.

Lemma diff_unknown_clock_witness :
  diff_constrain_command "x" "z" "<=" 5 (zero 2 "red")
    = constrain_command "x" "<=" 5 (zero 2 "red")
  ∧ diff_constrain_command "z" "x" "<=" (- 5) (zero 2 "red")
    = constrain_command "x" ">=" 5 (zero 2 "red")
  ∧ diff_constrain_command "y" "z" "<=" 5 (zero 2 "red")
    = constrain_command "y" "<=" 5 (zero 2 "red")
  ∧ diff_constrain_command "z" "y" "<=" (- 5) (zero 2 "red")
    = constrain_command "y" ">=" 5 (zero 2 "red").
Proof. apply diff_unknown_clock; [done | done | lia]. Defined.

(** ** [__str__] on two clocks *)

Lemma clock_name_x s : clock_name (clock_names 3) 1 s = Returns "x"%string s.
Proof. reflexivity. Qed.

Lemma clock_name_y s : clock_name (clock_names 3) 2 s = Returns "y"%string s.
Proof. reflexivity. Qed.

(** One iteration of the first loop of [__str__]. *)
Lemma single_bounds_spec names c1 nm lo hi b d acc n l col :
  py_get l (0 * n + c1) = Some lo →
  py_get l (c1 * n + 0) = Some hi →
  py_get l (1 * n + 0) = Some d →
  py_get l (0 * n + 1) = Some b →
  (∀ s, clock_name names c1 s = Returns nm s) →
  single_bounds names c1 acc (mkDBM n l col) =
  Returns (acc ++ constraint_text lo hi (nm +:+ "=" +:+ pretty hi)
             (if d =? infinity then None else Some (nm +:+ "<=" +:+ pretty d)%string)
             (if b =? 0 then None else Some (nm +:+ ">=" +:+ pretty (- b))%string))
          (mkDBM n l col).
Proof.
  intros Hlo Hhi Hd Hb Hnm. unfold single_bounds, constraint_text.
  rewrite (bind_Returns _ _ _ _ _ (getitem_Some _ _ _ _ _ _ Hlo)).
  rewrite (bind_Returns _ _ _ _ _ (getitem_Some _ _ _ _ _ _ Hhi)).
  destruct (- lo =? hi).
  { rewrite (bind_Returns _ _ _ _ _ (Hnm _)).
    by rewrite (bind_Returns _ _ _ _ _ (getitem_Some _ _ _ _ _ _ Hhi)). }
  rewrite (bind_Returns _ _ _ _ _ (getitem_Some _ _ _ _ _ _ Hd)).
  destruct (d =? infinity); cbn [negb option_list].
  - rewrite ret_bind.
    rewrite (bind_Returns _ _ _ _ _ (getitem_Some _ _ _ _ _ _ Hb)).
    destruct (b =? 0); cbn [negb option_list].
    + by rewrite !app_nil_r.
    + rewrite (bind_Returns _ _ _ _ _ (Hnm _)).
      by rewrite (bind_Returns _ _ _ _ _ (getitem_Some _ _ _ _ _ _ Hb)).
  - rewrite (bind_Returns _ _ _ (acc ++ [nm +:+ "<=" +:+ pretty d]%string)
               (mkDBM n l col)).
    2:{ rewrite (bind_Returns _ _ _ _ _ (Hnm _)).
        by rewrite (bind_Returns _ _ _ _ _ (getitem_Some _ _ _ _ _ _ Hd)). }
    rewrite (bind_Returns _ _ _ _ _ (getitem_Some _ _ _ _ _ _ Hb)).
    destruct (b =? 0); cbn [negb option_list].
    + by rewrite app_nil_r.
    + rewrite (bind_Returns _ _ _ _ _ (Hnm _)).
      rewrite (bind_Returns _ _ _ _ _ (getitem_Some _ _ _ _ _ _ Hb)).
      by rewrite <- app_assoc.
Qed.

(** One iteration of the nested loop of [__str__]. *)
Lemma difference_bounds_spec names c1 c2 n1 n2 x12 x21 f h acc n l col :
  py_get l (c1 * n + c2) = Some x12 →
  py_get l (c2 * n + c1) = Some x21 →
  py_get l (2 * n + 1) = Some h →
  py_get l (1 * n + 2) = Some f →
  (∀ s, clock_name names c1 s = Returns n1 s) →
  (∀ s, clock_name names c2 s = Returns n2 s) →
  difference_bounds names c1 c2 acc (mkDBM n l col) =
  Returns (acc ++ constraint_text x12 x21
             (n1 +:+ "-" +:+ n2 +:+ "=" +:+ pretty x12)
             (if h =? infinity then None
              else Some (n2 +:+ "-" +:+ n1 +:+ "<=" +:+ pretty x21)%string)
             (if f =? infinity then None
              else Some (n1 +:+ "-" +:+ n2 +:+ "<=" +:+ pretty x12)%string))
          (mkDBM n l col).
Proof.
  intros H12 H21 Hh Hf Hn1 Hn2. unfold difference_bounds, constraint_text.
  rewrite (bind_Returns _ _ _ _ _ (getitem_Some _ _ _ _ _ _ H12)).
  rewrite (bind_Returns _ _ _ _ _ (getitem_Some _ _ _ _ _ _ H21)).
  destruct (- x12 =? x21).
  { rewrite (bind_Returns _ _ _ _ _ (Hn1 _)).
    rewrite (bind_Returns _ _ _ _ _ (Hn2 _)).
    by rewrite (bind_Returns _ _ _ _ _ (getitem_Some _ _ _ _ _ _ H12)). }
  rewrite (bind_Returns _ _ _ _ _ (getitem_Some _ _ _ _ _ _ Hh)).
  destruct (h =? infinity); cbn [negb option_list].
  - rewrite ret_bind.
    rewrite (bind_Returns _ _ _ _ _ (getitem_Some _ _ _ _ _ _ Hf)).
    destruct (f =? infinity); cbn [negb option_list].
    + by rewrite !app_nil_r.
    + rewrite (bind_Returns _ _ _ _ _ (Hn1 _)).
      rewrite (bind_Returns _ _ _ _ _ (Hn2 _)).
      by rewrite (bind_Returns _ _ _ _ _ (getitem_Some _ _ _ _ _ _ H12)).
  - rewrite (bind_Returns _ _ _
               (acc ++ [n2 +:+ "-" +:+ n1 +:+ "<=" +:+ pretty x21]%string)
               (mkDBM n l col)).
    2:{ rewrite (bind_Returns _ _ _ _ _ (Hn2 _)).
        rewrite (bind_Returns _ _ _ _ _ (Hn1 _)).
        by rewrite (bind_Returns _ _ _ _ _ (getitem_Some _ _ _ _ _ _ H21)). }
    rewrite (bind_Returns _ _ _ _ _ (getitem_Some _ _ _ _ _ _ Hf)).
    destruct (f =? infinity); cbn [negb option_list].
    + by rewrite app_nil_r.
    + rewrite (bind_Returns _ _ _ _ _ (Hn1 _)).
      rewrite (bind_Returns _ _ _ _ _ (Hn2 _)).
      rewrite (bind_Returns _ _ _ _ _ (getitem_Some _ _ _ _ _ _ H12)).
      by rewrite <- app_assoc.
Qed.

(** The two loops of [__str__] on two clocks. *)
Lemma str_loops_3x3 a b c d e f g h i col :
  (n ← self_clocks;
   let names := clock_names n in
   c ← for_acc (range 1 n) (single_bounds names) [];
   c ← for_acc (range 1 n) (λ c1 c,
         for_acc (range (c1 + 1) n) (λ c2 c,
           difference_bounds names c1 c2 c) c) c;
   ret (String.concat " and " c)) (mkDBM 3 [a;b;c;d;e;f;g;h;i] col) =
  Returns (text_two_clocks b c d f g h) (mkDBM 3 [a;b;c;d;e;f;g;h;i] col).
Proof.
  set (s := mkDBM 3 [a;b;c;d;e;f;g;h;i] col).
  rewrite (bind_Returns _ _ _ 3 s) by done. cbv zeta.
  rewrite range_1_3.
  pose proof (single_bounds_spec (clock_names 3) 1 "x" b d b d [] 3
                [a;b;c;d;e;f;g;h;i] col eq_refl eq_refl eq_refl eq_refl
                clock_name_x) as Hx.
  set (cx := constraint_text b d _ _ _) in Hx.
  pose proof (single_bounds_spec (clock_names 3) 2 "y" c g b d ([] ++ cx) 3
                [a;b;c;d;e;f;g;h;i] col eq_refl eq_refl eq_refl eq_refl
                clock_name_y) as Hy.
  set (cy := constraint_text c g _ _ _) in Hy.
  pose proof (difference_bounds_spec (clock_names 3) 1 2 "x" "y" f h f h
                (([] ++ cx) ++ cy) 3 [a;b;c;d;e;f;g;h;i] col
                eq_refl eq_refl eq_refl eq_refl clock_name_x clock_name_y) as Hxy.
  set (cxy := constraint_text f h _ _ _) in Hxy.
  fold s in Hx, Hy, Hxy.
  rewrite (bind_Returns _ _ _ (([] ++ cx) ++ cy) s).
  2:{ cbn [for_acc]. rewrite (bind_Returns _ _ _ _ _ Hx).
      by rewrite (bind_Returns _ _ _ _ _ Hy). }
  rewrite (bind_Returns _ _ _ ((([] ++ cx) ++ cy) ++ cxy) s).
  2:{ cbn [for_acc]. change (range (1 + 1) 3) with [2].
      change (range (2 + 1) 3) with (@nil Z). cbn [for_acc].
      rewrite (bind_Returns _ _ _ ((([] ++ cx) ++ cy) ++ cxy) s); [done|].
      by rewrite (bind_Returns _ _ _ _ _ Hxy). }
  rewrite app_nil_l, <- app_assoc. reflexivity.
Qed.

(** X17.  On two clocks, [__str__] returns [true] or [false] when
    [__eq__] equates the DBM with [true(2)] or [false(2)], and otherwise
    the constraints joined by [ and ]: for each clock [name=D[c,0]] when
    [-D[0,c] = D[c,0]], else [name<=D[1,0]] unless [D[1,0]] is infinity and
    [name>=-D[0,1]] unless [D[0,1]] is 0, then the difference constraints.
    The inequalities printed for [y] carry the bounds [D[1,0]] and
    [D[0,1]] of [x]: unless [y] is pinned, the text does not depend on
    [D[0,2]] and [D[2,0]]. *)
Theorem str_two_clocks col1 col2 a b c d e f g h i col :
  str_ col1 col2 (mkDBM 3 [a;b;c;d;e;f;g;h;i] col) =
    Returns (if eq_ (mkDBM 3 [a;b;c;d;e;f;g;h;i] col) (true2 col1)
             then "true"%string
             else if eq_ (mkDBM 3 [a;b;c;d;e;f;g;h;i] col) (false_ 2 col2)
             then "false"%string
             else text_two_clocks b c d f g h)
            (mkDBM 3 [a;b;c;d;e;f;g;h;i] col)
  ∧ ∀ c' g', - c ≠ g → - c' ≠ g' →
      text_two_clocks b c' d f g' h = text_two_clocks b c d f g h.
Proof.
  split.
  - unfold str_. cbn [clocks]. change (3 - 1) with 2. rewrite true_2.
    destruct (eq_ _ (true2 col1)); [done|].
    destruct (eq_ _ (false_ 2 col2)); [done|].
    apply str_loops_3x3.
  - intros c' g' Hy Hy'. unfold text_two_clocks, constraint_text.
    destruct (Z.eqb_spec (- c) g); [done|].
    by destruct (Z.eqb_spec (- c') g'); [done|].
Qed.

Lemma str_two_clocks_witness :
  text_two_clocks (-3) (-1) 8 5 9 (-3) = text_two_clocks (-3) 0 8 5 3 (-3).
Proof.
  destruct (str_two_clocks "" "" 0 (-3) 0 8 0 5 3 (-3) 0 "red"%string) as [_ H].
  apply H; lia.
Defined.

(** ** [LUextrapolate] within the bounds *)

(** X18.  On two clocks, the command [LUextrapolate lx ux ly uy] with
    non-negative [ux] and [uy] changes nothing in a DBM that [canonize]
    leaves as it is and whose finite off-diagonal bounds [D[i,j]] satisfy
    [D[i,j] <= L[i]] and [-D[i,j] <= U[j]], for [L = [infinity, lx, ly]]
    and [U = [infinity, ux, uy]]. *)
Theorem lu_extrapolate_within lx ux ly uy a b c d e f g h k col :
  0 <= ux → 0 <= uy →
  canonize (mkDBM 3 [a;b;c;d;e;f;g;h;k] col) =
    Returns tt (mkDBM 3 [a;b;c;d;e;f;g;h;k] col) →
  within_maxima b infinity ux → within_maxima c infinity uy →
  within_maxima d lx infinity → within_maxima f lx uy →
  within_maxima g ly infinity → within_maxima h ly ux →
  lu_extrapolate_command [lx; ux; ly; uy] (mkDBM 3 [a;b;c;d;e;f;g;h;k] col) =
    Returns tt (mkDBM 3 [a;b;c;d;e;f;g;h;k] col).
Proof.
  intros H1 H2 Hcan Wb Wc Wd Wf Wg Wh. unfold lu_extrapolate_command.
  rewrite lu_extrapolate_3x3.
  rewrite !extrapolated_within by (done || unfold infinity; lia). done.
Qed.

Lemma lu_extrapolate_within_witness :
  lu_extrapolate_command [4; 2; 9; 0]
    (mkDBM 3 [0;-2;0; 3;0;3; infinity;infinity;0] "red") =
  Returns tt (mkDBM 3 [0;-2;0; 3;0;3; infinity;infinity;0] "red").
Proof.
  apply (lu_extrapolate_within 4 2 9 0 0 (-2) 0 3 0 3 infinity infinity 0
           "red"%string);
    first [ lia | vm_compute; reflexivity
          | unfold within_maxima, infinity; lia ].
Defined.

(** ** [reset] on any number of clocks *)

(** X19.  On a square DBM with any number of clocks, [reset(c, v)] for a
    real clock [1 <= c < clocks] returns without raising and keeps the
    dimension, the colour, the length of the list and every diagonal
    entry. *)
Theorem reset_returns N l col c v :
  square (mkDBM N l col) → 1 <= c < N →
  ∃ l', reset c v (mkDBM N l col) = Returns tt (mkDBM N l' col)
        ∧ length l' = length l
        ∧ ∀ i, 0 <= i < N →
            entry (mkDBM N l' col) i i = entry (mkDBM N l col) i i.
Proof.
  unfold square. cbn [dbm clocks]. intros Hsq Hc.
  set (K := λ s : DBM, ∃ l', s = mkDBM N l' col ∧ length l' = length l
              ∧ ∀ i, 0 <= i < N →
                  l' !! Z.to_nat (i * N + i) = l !! Z.to_nat (i * N + i)).
  assert (∀ l1 i j w, length l1 = length l → 0 <= i < N → 0 <= j < N → i ≠ j →
            (∀ i, 0 <= i < N →
               l1 !! Z.to_nat (i * N + i) = l !! Z.to_nat (i * N + i)) →
            ∃ s', setitem i j w (mkDBM N l1 col) = Returns tt s' ∧ K s') as Hset.
  { intros l1 i j w Hlen Hi Hj Hne Hd. eexists. split.
    { apply setitem_nonneg. rewrite Hlen. by apply square_reads. }
    eexists. split; [done|]. split; [by rewrite length_insert|].
    intros i0 Hi0. rewrite list_lookup_insert_ne; [by apply Hd|].
    intros E. symmetry in E. revert E. by apply diagonal_position. }
  unfold reset.
  destruct (Hset l c 0 v) as (s1 & Hs1 & (l1 & -> & Hlen1 & Hd1));
    [done|lia|lia|lia|done|].
  rewrite (bind_Returns _ _ _ _ _ Hs1).
  destruct (Hset l1 0 c v) as (s2 & Hs2 & (l2 & -> & Hlen2 & Hd2));
    [done|lia|lia|lia|done|].
  rewrite (bind_Returns _ _ _ _ _ Hs2).
  rewrite (bind_Returns _ _ _ N (mkDBM N l2 col)) by done.
  destruct (for_range_inv (λ _, K) 1 N
              (λ clock2, if negb (clock2 =? c)
                         then setitem c clock2 infinity;; setitem clock2 c infinity
                         else ret tt) (mkDBM N l2 col))
    as (s3 & Hs3 & (l3 & -> & Hlen3 & Hd3)); [lia|by exists l2|..].
  { intros c2 s H2 (l' & -> & Hlen' & Hd').
    destruct (Z.eqb_spec c2 c) as [->|Hne]; cbn [negb].
    { eexists. split; [done|]. by exists l'. }
    destruct (Hset l' c c2 infinity) as (s4 & Hs4 & (l4 & -> & Hlen4 & Hd4));
      [done|lia|lia|lia|done|].
    rewrite (bind_Returns _ _ _ _ _ Hs4).
    destruct (Hset l4 c2 c infinity) as (s5 & Hs5 & HK5);
      [done|lia|lia|lia|done|].
    by exists s5. }
  rewrite (bind_Returns _ _ _ _ _ Hs3).
  destruct (canonize_square N l3 col) as (l4 & Hl4 & Hlen4 & Hd4 & _); [lia|].
  exists l4. split; [done|]. split; [lia|].
  intros i Hi. unfold entry. cbn [dbm clocks].
  rewrite !py_get_nonneg by nia. rewrite Hd4 by done. by apply Hd3.
Qed.

Lemma reset_returns_witness :
  ∃ l', reset 2 7 (mkDBM 4 (replicate 16 5) "red")
        = Returns tt (mkDBM 4 l' "red")
        ∧ length l' = length (replicate 16 5)
        ∧ ∀ i, 0 <= i < 4 →
            entry (mkDBM 4 l' "red") i i
            = entry (mkDBM 4 (replicate 16 5) "red") i i.
Proof. apply reset_returns; [reflexivity|lia]. Defined.

(** ** The [new] command *)

(** [DBM(n)] in the store: a new object with a new list of zeros and the
    next colour; nothing else changes. *)
Lemma new_DBM_spec n st :
  ∃ q a,
    new_DBM n st =
      (q, mkStore (<[a := replicate (Z.to_nat ((n + 1) ^ 2)) 0]> (lists st))
                  (<[q := mkObject (n + 1) a
                            (default "red"%string
                               (colors !! (color_iter st `mod` 6)%nat))]>
                     (objects st))
                  (S (color_iter st)))
    ∧ objects st !! q = None
    ∧ lists st !! a = None.
Proof.
  exists (fresh (dom (objects st))), (fresh (dom (lists st))).
  split; [reflexivity|].
  split; apply not_elem_of_dom, is_fresh.
Qed.

(** An object allocated at a free address, with its list at a free
    address, leaves every view as it is. *)
Lemma view_alloc st q a o l r d k :
  objects st !! q = None → lists st !! a = None →
  view st r = Some d →
  view (mkStore (<[a := l]> (lists st)) (<[q := o]> (objects st)) k) r = Some d.
Proof.
  intros Hq Ha Hr. destruct (view_Some _ _ _ Hr) as (o' & Ho' & Hl' & ->).
  unfold view. cbn [objects lists].
  assert (r ≠ q) by (intros ->; by rewrite Hq in Ho').
  assert (o_dbm o' ≠ a) by (intros E; by rewrite E, Ha in Hl').
  rewrite lookup_insert_ne by done. rewrite Ho'. cbn [mbind option_bind].
  rewrite lookup_insert_ne by done. by rewrite Hl'.
Qed.

Lemma true_loops_2 col :
  true_loops 2 (mkDBM 3 (replicate 9 0) col) = Returns tt (true2 col).
Proof. vm_compute. reflexivity. Qed.

(** What the three constructors build in the store. *)
Lemma new_kind_spec kind st :
  kind = "true"%string ∨ kind = "false"%string ∨ kind = "zero"%string →
  ∃ q st',
    (if bool_decide (kind = "true"%string) then new_true 2 st
     else if bool_decide (kind = "false"%string) then new_false 2 st
     else Some (new_DBM 2 st)) = Some (q, st')
    ∧ objects st !! q = None
    ∧ view st' q =
        Some (mkDBM 3 (kind_matrix kind)
                (default "red"%string (colors !! (color_iter st `mod` 6)%nat)))
    ∧ (∀ r d, view st r = Some d → view st' r = Some d)
    ∧ color_iter st' = S (color_iter st).
Proof.
  intros Hkind. destruct (new_DBM_spec 2 st) as (q & a & Hnew & Hq & Ha).
  change (Z.to_nat ((2 + 1) ^ 2)) with 9%nat in Hnew.
  change (2 + 1) with 3 in Hnew.
  set (col := default "red"%string (colors !! (color_iter st `mod` 6)%nat)) in *.
  unfold kind_matrix.
  destruct Hkind as [-> | [-> | ->]]; cbn [bool_decide decide_rel].
  - rewrite bool_decide_eq_true_2 by done.
    unfold new_true. rewrite Hnew. unfold call. cbn [objects lists color_iter].
    rewrite lookup_insert_eq. cbn [mbind option_bind o_dbm o_clocks o_color].
    rewrite lookup_insert_eq. cbn [mbind option_bind].
    rewrite true_loops_2. exists q. eexists. split; [reflexivity|].
    split; [done|]. split; [|split; [|done]].
    + unfold view. cbn [objects lists]. rewrite lookup_insert_eq.
      cbn [mbind option_bind o_dbm]. by rewrite lookup_insert_eq.
    + intros r d Hr. rewrite !insert_insert_eq. by apply view_alloc.
  - rewrite bool_decide_eq_false_2 by done.
    rewrite bool_decide_eq_true_2 by done.
    unfold new_false. rewrite Hnew. unfold alloc_list.
    cbn [objects lists color_iter].
    rewrite lookup_insert_eq. cbn [mbind option_bind o_dbm o_clocks o_color].
    set (a2 := fresh (dom (<[a:=replicate 9 0]> (lists st)))).
    assert (lists st !! a2 = None) as Ha2.
    { apply not_elem_of_dom. intros Hin.
      apply (is_fresh (dom (<[a:=replicate 9 0]> (lists st)))).
      fold a2. rewrite dom_insert. set_solver. }
    assert (a2 ≠ a) as Hne.
    { intros E. apply (is_fresh (dom (<[a:=replicate 9 0]> (lists st)))).
      fold a2. rewrite E. apply elem_of_dom. rewrite lookup_insert_eq.
      by eexists. }
    exists q. eexists. split; [reflexivity|].
    split; [done|]. split; [|split; [|done]].
    + unfold view. cbn [objects lists]. rewrite lookup_insert_eq.
      cbn [mbind option_bind o_dbm]. by rewrite lookup_insert_eq.
    + intros r d Hr. rewrite insert_insert_eq.
      destruct (view_Some _ _ _ Hr) as (o' & Ho' & Hl' & ->).
      unfold view. cbn [objects lists].
      assert (r ≠ q) by (intros ->; by rewrite Hq in Ho').
      assert (o_dbm o' ≠ a) by (intros E; by rewrite E, Ha in Hl').
      assert (o_dbm o' ≠ a2) by (intros E; by rewrite E, Ha2 in Hl').
      rewrite lookup_insert_ne by done. rewrite Ho'. cbn [mbind option_bind].
      rewrite !lookup_insert_ne by done. by rewrite Hl'.
  - rewrite !bool_decide_eq_false_2 by done.
    rewrite Hnew. exists q. eexists. split; [reflexivity|].
    split; [done|]. split; [|split; [|done]].
    + unfold view. cbn [objects lists]. rewrite lookup_insert_eq.
      cbn [mbind option_bind o_dbm]. by rewrite lookup_insert_eq.
    + intros r d Hr. by apply view_alloc.
Qed.

Lemma name_char_high k :
  (192 <= k < 256)%nat → name_char (Ascii.ascii_of_nat k) = false.
Proof.
  intros Hk. unfold name_char. rewrite Ascii.nat_ascii_embedding by lia.
  cbv zeta.
  destruct (Nat.leb_spec k 122), (Nat.leb_spec k 90), (Nat.leb_spec k 57),
    (Nat.eqb_spec k 95), (Nat.eqb_spec k 39);
    first [lia | by rewrite ?andb_false_r].
Qed.

(** From the character after [z] on, [name_re] rejects every generated
    name. *)
Lemma name_ok_chr n : 123 <= n < 1114112 → name_ok (chr n) = false.
Proof.
  intros Hn. unfold name_ok. apply andb_false_iff. right. unfold chr.
  destruct (Z.ltb_spec n 128).
  { assert (n = 123 ∨ n = 124 ∨ n = 125 ∨ n = 126 ∨ n = 127)
      as [-> | [-> | [-> | [-> | ->]]]] by lia; reflexivity. }
  assert (∀ B rest, 192 <= B < 256 →
            all_name_chars (String.String (byte B) rest) = false) as Hhigh.
  { intros B rest HB. cbn [all_name_chars]. unfold byte.
    rewrite name_char_high by lia. done. }
  destruct (Z.ltb_spec n 2048).
  { apply Hhigh. assert (2 <= n / 64 < 32); [|lia].
    split; [apply Z.div_le_lower_bound | apply Z.div_lt_upper_bound]; lia. }
  destruct (Z.ltb_spec n 65536).
  { apply Hhigh. assert (0 <= n / 4096 < 16); [|lia].
    split; [apply Z.div_le_lower_bound | apply Z.div_lt_upper_bound]; lia. }
  apply Hhigh. assert (0 <= n / 262144 < 5); [|lia].
  split; [apply Z.div_le_lower_bound | apply Z.div_lt_upper_bound]; lia.
Qed.

(** X20.  [new <kind> <name>] with a name that [name_re] rejects still
    binds and selects the name, to [None], whatever the kind; the same
    happens without a name once the generated names have passed [z]:
    from the character after [z] up to the last code point but one, the
    generated name is rejected, bound to [None] and selected, and
    [_current_name] advances.  A [copy] of a selection bound to [None]
    raises. *)
Theorem new_rejected_name kind name more ss :
  name_ok name = false →
  new_command ("new"%string :: kind :: name :: more) ss =
    Some (mkSession (heap ss) (<[name := None]> (dbms ss)) (Some name)
            (current_name ss))
  ∧ (123 <= current_name ss < 1114111 →
     name_ok (chr (current_name ss)) = false
     ∧ new_command ["new"%string; kind] ss =
         Some (mkSession (heap ss)
                 (<[chr (current_name ss) := None]> (dbms ss))
                 (Some (chr (current_name ss))) (current_name ss + 1)))
  ∧ copy_command ["copy"%string]
      (mkSession (heap ss) (<[name := None]> (dbms ss)) (Some name)
         (current_name ss)) = None.
Proof.
  intros Hbad. split; [|split].
  - unfold new_command. cbn [mbind option_bind]. by rewrite Hbad.
  - intros Hcode.
    assert (name_ok (chr (current_name ss)) = false) as Hrej
      by (apply name_ok_chr; lia).
    split; [done|]. unfold new_command, next_name.
    destruct (Z.leb_spec 0 (current_name ss)); [|lia].
    destruct (Z.ltb_spec (current_name ss) 1114111); [|lia].
    cbn [andb mbind option_bind]. cbn [current_name]. by rewrite Hrej.
  - unfold copy_command. cbn [current_dbm dbms].
    destruct (copy_name_spec (S (size (<[name:=None]> (dbms ss))))
                (<[name:=@None positive]> (dbms ss)) name)
      as (k & Hk & _); [lia|].
    rewrite Hk. cbn [mbind option_bind]. unfold copy_as. cbn [dbms].
    by rewrite lookup_insert_eq.
Qed.

Lemma new_rejected_name_witness :
  new_command ["new"; "zero"; "a-b"]%string
    (mkSession empty_store ∅ None 200) =
    Some (mkSession empty_store (<["a-b"%string := None]> ∅)
            (Some "a-b"%string) 200)
  ∧ (name_ok (chr 200) = false
     ∧ new_command ["new"%string; "zero"%string]
         (mkSession empty_store ∅ None 200) =
         Some (mkSession empty_store (<[chr 200 := None]> ∅)
                 (Some (chr 200)) (200 + 1)))
  ∧ copy_command ["copy"%string]
      (mkSession empty_store (<["a-b"%string := None]> ∅)
         (Some "a-b"%string) 200) = None.
Proof.
  destruct (new_rejected_name "zero" "a-b" [] (mkSession empty_store ∅ None 200))
    as (H1 & H2 & H3); [reflexivity|].
  split; [exact H1|]. split; [|exact H3]. apply H2. cbn. lia.
Defined.

(** X21.  [new <kind> <name>] with a kind among [true], [false], [zero]
    and a name that [name_re] accepts: it creates a new object, binds the
    name to it (replacing what the name was bound to) and selects it; the
    new DBM has two clocks, the matrix of its kind and the next colour of
    the cycle; every DBM that existed keeps its state; and [color_iter]
    advances by one. *)
Theorem new_result kind name more ss :
  kind = "true"%string ∨ kind = "false"%string ∨ kind = "zero"%string →
  name_ok name = true →
  ∃ q ss',
    new_command ("new"%string :: kind :: name :: more) ss = Some ss'
    ∧ objects (heap ss) !! q = None
    ∧ dbms ss' = <[name := Some q]> (dbms ss)
    ∧ current_dbm ss' = Some name
    ∧ view (heap ss') q =
        Some (mkDBM 3 (kind_matrix kind)
                (default "red"%string
                   (colors !! (color_iter (heap ss) `mod` 6)%nat)))
    ∧ (∀ r d, view (heap ss) r = Some d → view (heap ss') r = Some d)
    ∧ color_iter (heap ss') = S (color_iter (heap ss)).
Proof.
  intros Hkind Hok.
  destruct (new_kind_spec kind (heap ss) Hkind)
    as (q & st' & Hnew & Hq & Hv & Hframe & Hiter).
  exists q, (bind_dbm name (Some q) st' ss).
  split; [|by repeat split].
  unfold new_command. cbn [mbind option_bind]. rewrite Hok. cbn [negb].
  destruct Hkind as [-> | [-> | ->]].
  - rewrite bool_decide_eq_true_2 in Hnew |- * by done.
    rewrite Hnew. done.
  - rewrite (bool_decide_eq_false_2 ("false" = "true")%string) in Hnew |- * by done.
    rewrite bool_decide_eq_true_2 in Hnew |- * by done.
    rewrite Hnew. done.
  - rewrite (bool_decide_eq_false_2 ("zero" = "true")%string) in Hnew |- * by done.
    rewrite (bool_decide_eq_false_2 ("zero" = "false")%string) in Hnew |- * by done.
    rewrite bool_decide_eq_true_2 by done.
    assert (new_DBM 2 (heap ss) = (q, st')) as Hn by congruence.
    by rewrite Hn.
Qed.

Lemma new_result_witness :
  ∃ q ss',
    new_command ["new"; "true"; "b"]%string one_dbm_session = Some ss'
    ∧ objects (heap one_dbm_session) !! q = None
    ∧ dbms ss' = <["b"%string := Some q]> (dbms one_dbm_session)
    ∧ current_dbm ss' = Some "b"%string
    ∧ view (heap ss') q =
        Some (mkDBM 3 (kind_matrix "true")
                (default "red"%string
                   (colors !! (color_iter (heap one_dbm_session) `mod` 6)%nat)))
    ∧ (∀ r d, view (heap one_dbm_session) r = Some d →
              view (heap ss') r = Some d)
    ∧ color_iter (heap ss') = S (color_iter (heap one_dbm_session)).
Proof.
  apply (new_result "true" "b" [] one_dbm_session); [by left|reflexivity].
Defined.
